(** * wscli migrate: identity mapping and RoleBinding transformation

    A shallow embedding of [cmd/migrate.go] (package [cmd]) of the
    rbac-migration tool: [cleanEmail], [buildIDMap],
    [mutateTenantRoleBindings] and the de-duplicating loop of
    [writeMigratedRoleBindings].

    Go strings are byte sequences: they are modelled by [string], whose
    characters are the 256 values of [ascii].  Go maps are [gmap]s; a nil
    map and an empty map are both [∅].  [log.Fatalf] and a run-time panic
    end the process: functions that can reach them return a [result].
    What the directory, the cluster, the encoder and the file system
    answer is a parameter of the function that asks. *)

From Stdlib Require Import Ascii String.
From stdpp Require Import gmap strings list fin_maps.

Set Warnings "-register-all".
Local Open Scope string_scope.
Local Arguments String.append !_ _ / : simpl nomatch.
Local Arguments Ascii.eqb : simpl never.

(** ** Outcome of a call that may end the process *)

Inductive result (A : Type) : Type :=
| Ok (a : A)
| Fatal (msg : string)      (* log.Fatalf: message, then os.Exit(1) *)
| Panic (msg : string).     (* run-time panic, e.g. index out of range *)
Arguments Ok {A} a.
Arguments Fatal {A} msg.
Arguments Panic {A} msg.

Definition bind {A B} (r : result A) (k : A -> result B) : result B :=
  match r with
  | Ok a => k a
  | Fatal msg => Fatal msg
  | Panic msg => Panic msg
  end.

Definition is_Ok {A} (r : result A) : bool :=
  match r with Ok _ => true | _ => false end.

Definition aborted {A} (r : result A) : bool := negb (is_Ok r).

(** A [for ... range] loop over a slice whose body may end the process. *)
Fixpoint foldM {A S : Type} (body : S -> A -> result S) (l : list A) (s : S) : result S :=
  match l with
  | [] => Ok s
  | x :: l' => bind (body s x) (foldM body l')
  end.

(** ** The part of Go's package [strings] (and string slicing) that is used *)

Module GoStrings.

(** [s[n:]] and [s[:n]] for [n <= len(s)]. *)
Fixpoint drop (n : nat) (s : string) : string :=
  match n, s with
  | S k, String _ s' => drop k s'
  | _, _ => s
  end.

Fixpoint take (n : nat) (s : string) : string :=
  match n, s with
  | S k, String c s' => String c (take k s')
  | _, _ => ""
  end.

(** [strings.HasPrefix(s, prefix)] *)
Fixpoint HasPrefix (s prefix : string) : bool :=
  match prefix, s with
  | "", _ => true
  | String _ _, "" => false
  | String a p, String b s' => if Ascii.eqb a b then HasPrefix s' p else false
  end.

(** [strings.Index(s, substr)]: the offset of the first occurrence,
    [None] for Go's -1. *)
Fixpoint Index (s substr : string) : option nat :=
  if HasPrefix s substr then Some 0
  else match s with
       | "" => None
       | String _ s' => S <$> Index s' substr
       end.

(** [strings.Contains(s, substr)] is [Index(s, substr) >= 0]. *)
Definition Contains (s substr : string) : bool :=
  match Index s substr with Some _ => true | None => false end.

(** [strings.Replace(s, old, new, 1)]: with [n = 1] the library writes
    [s[:j]], [new] and [s[j+len(old):]] for [j] the first occurrence of
    [old] ([j = 0] for an empty [old]), and returns [s] when there is
    none. *)
Definition ReplaceFirst (s old new : string) : string :=
  match Index s old with
  | None => s
  | Some j => take j s ++ new ++ drop (j + String.length old) s
  end.

(** The part of [s] that follows its first occurrence of [substr]. *)
Definition afterFirst (s substr : string) : string :=
  match Index s substr with
  | None => ""
  | Some j => drop (j + String.length substr) s
  end.

End GoStrings.

(** ** [cleanEmail]

    [regexp.MustCompile(`\+[^@]+@`).ReplaceAllString(email, "@")].
    The pattern is a ["+"], one or more characters other than ["@"], and
    an ["@"].  Both delimiters are ASCII, so a byte-wise reading agrees
    with the engine's rune-wise one.  From a given start the match, when
    there is one, ends at the first ["@"] after it. *)

(** Offset of the first ["@"] of [s]. *)
Fixpoint firstAt (s : string) : option nat :=
  match s with
  | "" => None
  | String c s' => if Ascii.eqb c "@" then Some 0 else S <$> firstAt s'
  end.

(** Length of the match of the pattern anchored at the start of [s]. *)
Definition matchAt (s : string) : option nat :=
  match s with
  | String c s' =>
      if Ascii.eqb c "+" then
        match firstAt s' with
        | Some (S k) => Some (S (S (S k)))
        | _ => None
        end
      else None
  | "" => None
  end.

(** [ReplaceAllString]: scan from the left; on a match write the
    replacement and resume after the match ([skip] counts the bytes of the
    match still to pass), otherwise copy the byte. *)
Fixpoint replaceAll (skip : nat) (s : string) : string :=
  match s with
  | "" => ""
  | String c s' =>
      match skip with
      | S k => replaceAll k s'
      | O =>
          match matchAt s with
          | Some n => String "@" (replaceAll (Nat.pred n) s')
          | None => String c (replaceAll 0 s')
          end
      end
  end.

Definition cleanEmail (email : string) : string := replaceAll 0 email.

(** ** Kubernetes objects *)

(** The content of an [unstructured.Unstructured] object: the JSON values
    of Go's [map[string]interface{}].  Only strings and nested maps are
    told apart by the code; every other dynamic type is [VOther]. *)
Inductive value : Type :=
| VString (s : string)
| VMap (m : gmap string value)
| VOther.

(** The type assertion [v.(map[string]interface{})] on the result of a map
    read; a missing key reads as nil, on which the assertion fails. *)
Definition asMap (v : option value) : option (gmap string value) :=
  match v with
  | Some (VMap m) => Some m
  | _ => None
  end.

(** The type assertion [v.(string)]. *)
Definition asString (v : option value) : option string :=
  match v with
  | Some (VString s) => Some s
  | _ => None
  end.

Record Unstructured : Type := { Object : gmap string value }.

(** [account.GetName()]: the nested string [metadata.name], or [""]. *)
Definition GetName (u : Unstructured) : string :=
  match asMap (Object u !! "metadata") with
  | Some md => default "" (asString (md !! "name"))
  | None => ""
  end.

(** [rbacv1.Subject] *)
Module Subject.
Record t : Type := mk
  { Kind : string; APIGroup : string; Name : string; Namespace : string }.
Definition setName (s : t) (name : string) : t :=
  mk (Kind s) (APIGroup s) name (Namespace s).
End Subject.

(** [rbacv1.RoleRef] *)
Module RoleRef.
Record t : Type := mk { APIGroup : string; Kind : string; Name : string }.
End RoleRef.

(** [metav1.ObjectMeta], with the fields the code writes and the rest of
    the metadata kept as an opaque list of values. *)
Module ObjectMeta.
Record t : Type := mk
  { Name : string;
    Namespace : string;
    Labels : gmap string string;
    Annotations : gmap string string;
    ResourceVersion : string;
    UID : string;
    CreationTimestamp : option string;   (* [None] is the zero [metav1.Time{}] *)
    ManagedFields : list string;
    Rest : list string }.
End ObjectMeta.

(** [rbacv1.RoleBinding] *)
Module RoleBinding.
Record t : Type := mk
  { Kind : string;
    APIVersion : string;
    Meta : ObjectMeta.t;
    Subjects : list Subject.t;
    Ref : RoleRef.t }.
Definition Name (rb : t) : string := ObjectMeta.Name (Meta rb).
Definition Namespace (rb : t) : string := ObjectMeta.Namespace (Meta rb).
End RoleBinding.

(** ** [getUser] and [buildIDMap] *)

(** [type Transform func(string) string].  [cleanEmail] is pure; [getUser]
    queries the directory and calls [log.Fatalf] when a search fails, so a
    transform returns a [result]. *)
Definition Transform : Type := string -> result string.

Definition cleanEmailT : Transform := fun email => Ok (cleanEmail email).

Section Directory.
(** [searchLDAP email emailField]: the [uid] of the first entry, [""]
    when there is none, fatal when the search itself fails. *)
Variable searchLDAP : string -> string -> result string.

Definition getUser : Transform := fun email =>
  let cEmail := cleanEmail email in
  bind (searchLDAP cEmail "mail") (fun userName =>
    if String.eqb userName "" then searchLDAP cEmail "rhatPreferredAlias"
    else Ok userName).
End Directory.

(** The body of the loop of [buildIDMap]; each [continue] leaves the map
    as it is. *)
Definition buildIDMap_body (transform : Transform)
    (idMap : gmap string string) (account : Unstructured) : result (gmap string string) :=
  let name := GetName account in
  match asMap (Object account !! "spec") with
  | None => Ok idMap                                   (* spec not found *)
  | Some spec =>
      match asMap (spec !! "propagatedClaims") with
      | None => Ok idMap                               (* claims not found *)
      | Some claims =>
          match asString (claims !! "email") with
          | None => Ok idMap                           (* email not found *)
          | Some email =>
              bind (transform email) (fun id =>
                if String.eqb id "" then Ok idMap
                else Ok (<[name := id]> idMap))
          end
      end
  end.

Definition buildIDMap (userAccounts : list Unstructured) (transform : Transform)
  : result (gmap string string) :=
  foldM (buildIDMap_body transform) userAccounts ∅.

(** An account whose claims structure is missing or malformed: one of the
    three type assertions of the loop body fails. *)
Definition claimsEmail (account : Unstructured) : option string :=
  match asMap (Object account !! "spec") with
  | None => None
  | Some spec =>
      match asMap (spec !! "propagatedClaims") with
      | None => None
      | Some claims => asString (claims !! "email")
      end
  end.

Definition malformed (account : Unstructured) : Prop := claimsEmail account = None.

(** ** [mutateTenantRoleBindings] *)

Definition legacyToken : string := "appstudio".
Definition productToken : string := "konflux".

(** The state of the loop: the two locals, and the elements of the
    caller's slice as the iterations leave them.  [rb] is a copy of the
    element, but [rb.Subjects] shares its backing array with it, so the
    write to [rb.Subjects[0].Name] is a write to the caller's binding. *)
Record loopState : Type := mkLoop
  { mrbList : list RoleBinding.t;
    processedNamespaces : gmap string nat;
    rbListSeen : list RoleBinding.t }.

Definition setSubjects (rb : RoleBinding.t) (subjects : list Subject.t) : RoleBinding.t :=
  RoleBinding.mk (RoleBinding.Kind rb) (RoleBinding.APIVersion rb)
                 (RoleBinding.Meta rb) subjects (RoleBinding.Ref rb).

(** The binding appended to [mrbList] when [idMap[user]] is [id]. *)
Definition migratedBinding (rb : RoleBinding.t) (user id : string) : RoleBinding.t :=
  let rbName := RoleBinding.Name rb in
  let role := RoleRef.Name (RoleBinding.Ref rb) in
  let cRole := GoStrings.ReplaceFirst role legacyToken productToken in
  let nrbName := GoStrings.ReplaceFirst rbName legacyToken productToken in
  let nrbName := GoStrings.ReplaceFirst nrbName user id in
  let subjects :=
    match RoleBinding.Subjects rb with
    | s0 :: rest => Subject.setName s0 id :: rest
    | [] => []
    end in
  {| RoleBinding.Kind := "RoleBinding";
     RoleBinding.APIVersion := "rbac.authorization.k8s.io/v1";
     RoleBinding.Meta :=
       {| ObjectMeta.Name := nrbName;
          ObjectMeta.Namespace := RoleBinding.Namespace rb;
          ObjectMeta.Labels := {[ "konflux-ci.dev/type" := "user" ]};
          ObjectMeta.Annotations := ∅;
          ObjectMeta.ResourceVersion := "";
          ObjectMeta.UID := "";
          ObjectMeta.CreationTimestamp := None;
          ObjectMeta.ManagedFields := [];
          ObjectMeta.Rest := ObjectMeta.Rest (RoleBinding.Meta rb) |};
     RoleBinding.Subjects := subjects;
     RoleBinding.Ref :=
       {| RoleRef.APIGroup := RoleRef.APIGroup (RoleBinding.Ref rb);
          RoleRef.Kind := "ClusterRole";
          RoleRef.Name := cRole |} |}.

Definition fatalMoreThanOne (rbName namespace : string) : string :=
  "RoleBinding " ++ rbName ++ " in Namespace " ++ namespace ++ " has more that one subject".

Definition indexOutOfRange : string :=
  "runtime error: index out of range [0] with length 0".

(** One iteration of the loop over [rbList].  The counts are Go [int]s;
    a count is at most [len(rbList)], itself an [int], so it never wraps
    and is a [nat] here. *)
Definition mutate_body (idMap : gmap string string)
    (st : loopState) (rb : RoleBinding.t) : result loopState :=
  let namespace := RoleBinding.Namespace rb in
  let pn :=
    match processedNamespaces st !! namespace with
    | Some _ => processedNamespaces st
    | None => <[namespace := 0]> (processedNamespaces st)
    end in
  let rbName := RoleBinding.Name rb in
  if (1 <? List.length (RoleBinding.Subjects rb))%nat then
    Fatal (fatalMoreThanOne rbName namespace)
  else
    match RoleBinding.Subjects rb !! 0 with
    | None => Panic indexOutOfRange
    | Some s0 =>
        let user := Subject.Name s0 in
        match idMap !! user with
        | Some id =>
            let mrb := migratedBinding rb user id in
            Ok {| mrbList := mrbList st ++ [mrb];
                  processedNamespaces := <[namespace := S (default 0 (pn !! namespace))]> pn;
                  rbListSeen := rbListSeen st ++ [setSubjects rb (RoleBinding.Subjects mrb)] |}
        | None =>
            Ok {| mrbList := mrbList st;
                  processedNamespaces := pn;
                  rbListSeen := rbListSeen st ++ [rb] |}
        end
    end.

Definition mutate_loop (idMap : gmap string string) (rbList : list RoleBinding.t)
  : result loopState :=
  foldM (mutate_body idMap) rbList (mkLoop [] ∅ []).

(** What a finished call leaves: the returned slice, the namespaces
    printed as orphans (in the order printed) with their number, and the
    caller's [rbList] after the call. *)
Record mutated : Type := mkMutated
  { migrated : list RoleBinding.t;
    orphans : list string;
    orphanCount : nat;
    rbListAfter : list RoleBinding.t }.

Section Mutate.
(** [for ns, nsCount := range processedNamespaces]: Go visits the
    entries of a map in an unspecified order, which may differ from one
    run to the next. *)
Variable rangeOrder : gmap string nat -> list (string * nat).

Definition orphanReport (pn : gmap string nat) : list string :=
  (filter (fun e => e.2 = 0) (rangeOrder pn)).*1.

Definition mutateTenantRoleBindings (idMap : gmap string string)
    (rbList : list RoleBinding.t) : result mutated :=
  bind (mutate_loop idMap rbList) (fun st =>
    let report := orphanReport (processedNamespaces st) in
    Ok {| migrated := mrbList st;
          orphans := report;
          orphanCount := List.length report;
          rbListAfter := rbListSeen st |}).
End Mutate.

(** An order in which [range] may visit a map: each entry once. *)
Definition validOrder (rangeOrder : gmap string nat -> list (string * nat)) : Prop :=
  forall m, rangeOrder m ≡ₚ map_to_list m.

(** ** [writeMigratedRoleBindings] and [migrate] *)

Definition newline : string := String "010"%char "".

(** The document separator ["---\n"]. *)
Definition separator : string := "---" ++ newline.

(** [fmt.Sprintf("(%s-%s)", rb.Namespace, rb.Name)] *)
Definition processedRB (rb : RoleBinding.t) : string :=
  "(" ++ RoleBinding.Namespace rb ++ "-" ++ RoleBinding.Name rb ++ ")".

(** The locals of the loop, the chunks the file holds and the bindings
    whose document was written (those counted by [written]). *)
Record writeState : Type := mkWrite
  { processedRBs : gmap string nat;
    written : nat;
    file : list string;
    writtenRBs : list RoleBinding.t }.

Section Write.
(** [runtime.Encode(serializer, &rb)]: the YAML document, [None] for an
    error. *)
Variable Encode : RoleBinding.t -> option string.

(** [file.WriteString(s)] on a file that holds [chunks]: [None] when the
    write succeeds, the file then holding [chunks ++ [s]]; [Some chunks']
    when it returns an error, [chunks'] being what the file holds then. *)
Variable WriteString : list string -> string -> option (list string).

Definition write_body (st : writeState) (rb : RoleBinding.t) : writeState :=
  let key := processedRB rb in
  match processedRBs st !! key with
  | Some _ => st                                     (* already processed *)
  | None =>
      let seen := <[key := 1]> (processedRBs st) in
      match WriteString (file st) separator with
      | Some file' =>                                (* Failed to write separator *)
          mkWrite seen (written st) file' (writtenRBs st)
      | None =>
          let file1 := (file st ++ [separator])%list in
          match Encode rb with
          | None => mkWrite seen (written st) file1 (writtenRBs st)
          | Some yamlData =>
              let cYamlData :=
                GoStrings.ReplaceFirst yamlData
                  ("metadata:" ++ newline ++ "  creationTimestamp: null") "metadata:" in
              match WriteString file1 cYamlData with
              | Some file' =>                        (* Failed to write RoleBinding *)
                  mkWrite seen (written st) file' (writtenRBs st)
              | None =>
                  mkWrite seen (S (written st)) (file1 ++ [cYamlData])%list
                          (writtenRBs st ++ [rb])%list
              end
          end
      end
  end.

(** The loop over [rbList], on the file just created. *)
Definition write_loop (rbList : list RoleBinding.t) : writeState :=
  fold_left write_body rbList (mkWrite ∅ 0 [] []).

(** [os.Create(outputFile)]: [None] when the file is created, empty, or
    the text of the error, on which the function is fatal. *)
Variable createErr : option string.

Definition writeMigratedRoleBindings (rbList : list RoleBinding.t) : result writeState :=
  match createErr with
  | Some err => Fatal ("Failed to create file: " ++ err ++ newline)
  | None => Ok (write_loop rbList)
  end.

(** [migrate], from the listed bindings on: the file is created and
    written only when [mutateTenantRoleBindings] returns. *)
Definition migrate (rangeOrder : gmap string nat -> list (string * nat))
    (idMap : gmap string string) (rbList : list RoleBinding.t) : result writeState :=
  bind (mutateTenantRoleBindings rangeOrder idMap rbList) (fun m =>
    writeMigratedRoleBindings (migrated m)).
End Write.

(** No write to the file returns an error. *)
Definition noWriteError (WriteString : list string -> string -> option (list string)) : Prop :=
  forall chunks s, WriteString chunks s = None.

(** A file system on which every write succeeds, and one on which every
    write fails and leaves the file as it is. *)
Definition writesAll : list string -> string -> option (list string) := fun _ _ => None.
Definition writesNothing : list string -> string -> option (list string) :=
  fun chunks _ => Some chunks.

(** ** Sample objects *)

Definition sampleBinding (namespace name user role : string) : RoleBinding.t :=
  {| RoleBinding.Kind := "";
     RoleBinding.APIVersion := "";
     RoleBinding.Meta :=
       {| ObjectMeta.Name := name;
          ObjectMeta.Namespace := namespace;
          ObjectMeta.Labels := {[ "toolchain.dev.openshift.com/provider" := "codeready-toolchain" ]};
          ObjectMeta.Annotations := ∅;
          ObjectMeta.ResourceVersion := "4711";
          ObjectMeta.UID := "0a1b";
          ObjectMeta.CreationTimestamp := Some "2025-01-01T00:00:00Z";
          ObjectMeta.ManagedFields := ["kubesaw"];
          ObjectMeta.Rest := [] |};
     RoleBinding.Subjects := [Subject.mk "User" "rbac.authorization.k8s.io" user ""];
     RoleBinding.Ref := RoleRef.mk "rbac.authorization.k8s.io" "Role" role |}.

Definition sampleAccount (name email : string) : Unstructured :=
  {| Object :=
       {[ "metadata" := VMap {[ "name" := VString name ]};
          "spec" := VMap {[ "propagatedClaims" := VMap {[ "email" := VString email ]} ]} ]} |}.

Definition noClaimsAccount (name : string) : Unstructured :=
  {| Object := {[ "metadata" := VMap {[ "name" := VString name ]};
                  "spec" := VMap ∅ ]} |}.

Definition mapOrder : gmap string nat -> list (string * nat) := map_to_list.

(** ** Notions used in the statements *)

(** [c] is one of the bytes of [s]. *)
Fixpoint mem (c : ascii) (s : string) : bool :=
  match s with
  | "" => false
  | String a s' => Ascii.eqb c a || mem c s'
  end.

(** [processedNamespaces] after the first statement of the loop body. *)
Definition track (namespace : string) (pn : gmap string nat) : gmap string nat :=
  match pn !! namespace with
  | Some _ => pn
  | None => <[namespace := 0]> pn
  end.

(** The migrated count of a namespace: an absent entry counts as zero. *)
Definition countOf (pn : gmap string nat) (namespace : string) : nat :=
  default 0 (pn !! namespace).

Definition oneSubject (rb : RoleBinding.t) : Prop := length (RoleBinding.Subjects rb) = 1.

Global Instance oneSubject_dec (rb : RoleBinding.t) : Decision (oneSubject rb).
Proof. unfold oneSubject. apply _. Defined.

Definition noSubjects (rb : RoleBinding.t) : RoleBinding.t := setSubjects rb [].

Definition addSubject (rb : RoleBinding.t) (user : string) : RoleBinding.t :=
  setSubjects rb (RoleBinding.Subjects rb
                    ++ [Subject.mk "User" "rbac.authorization.k8s.io" user ""]).

Definition result_map {A B : Type} (f : A -> B) (r : result A) : result B :=
  bind r (fun a => Ok (f a)).

(** The same outcome, with [R] between the values of two returns. *)
Definition result_rel {A : Type} (R : A -> A -> Prop) (r1 r2 : result A) : Prop :=
  match r1, r2 with
  | Ok a, Ok b => R a b
  | Fatal m1, Fatal m2 => m1 = m2
  | Panic m1, Panic m2 => m1 = m2
  | _, _ => False
  end.

(** Two states of the loop with the same migrated bindings and the same
    counts, the first of which tracks [namespace]. *)
Definition sameMigration (namespace : string) (st1 st2 : loopState) : Prop :=
  mrbList st1 = mrbList st2
  /\ (forall ns, countOf (processedNamespaces st1) ns = countOf (processedNamespaces st2) ns)
  /\ is_Some (processedNamespaces st1 !! namespace).

(** The number of migrated bindings of a namespace. *)
Definition migCount (ns : string) (l : list RoleBinding.t) : nat :=
  length (filter (fun m => RoleBinding.Namespace m = ns) l).

(** What the loop keeps true of its state after the bindings [seen]: a
    namespace is tracked exactly when a binding seen has it, and its count
    is the number of migrated bindings it has. *)
Definition counted (seen : list RoleBinding.t) (st : loopState) : Prop :=
  (forall ns, is_Some (processedNamespaces st !! ns)
              <-> exists rb, rb ∈ seen /\ RoleBinding.Namespace rb = ns)
  /\ (forall ns, countOf (processedNamespaces st) ns = migCount ns (mrbList st)).

(** ** Further notions: tags, the listing filter, the record of one binding *)

(** Some suffix of [s] starts with a match of the pattern of [cleanEmail]. *)
Fixpoint hasTag (s : string) : bool :=
  match s with
  | "" => false
  | String c s' =>
      match matchAt (String c s') with
      | Some _ => true
      | None => hasTag s'
      end
  end.

(** The number of bytes of [s] equal to [c]. *)
Fixpoint countByte (c : ascii) (s : string) : nat :=
  match s with
  | "" => 0
  | String a s' => (if Ascii.eqb a c then 1 else 0) + countByte c s'
  end.

(** The loop of [getTenantRoleBindings] over the listed items: the
    runner binding and the bindings of the host operator namespace are
    left out. *)
Fixpoint tenantRoleBindings (items : list RoleBinding.t) : list RoleBinding.t :=
  match items with
  | [] => []
  | rb :: rest =>
      if String.eqb (RoleBinding.Name rb) "appstudio-pipelines-runner-rolebinding"
      then tenantRoleBindings rest
      else if String.eqb (RoleBinding.Namespace rb) "toolchain-host-operator"
      then tenantRoleBindings rest
      else rb :: tenantRoleBindings rest
  end.

(** [getTenantRoleBindings]: the outcome of the [List] call is the items
    or the text of the error. *)
Definition getTenantRoleBindings (listed : list RoleBinding.t + string)
  : result (list RoleBinding.t) :=
  match listed with
  | inl items => Ok (tenantRoleBindings items)
  | inr err => Fatal ("Failed to list Tenant RoleBindings: " ++ err)
  end.

(** [getTenantNamespaces]: the names of the listed namespaces. *)
Definition getTenantNamespaces (listed : list ObjectMeta.t + string) : result (list string) :=
  match listed with
  | inl items => Ok (ObjectMeta.Name <$> items)
  | inr err => Fatal ("Failed to list namespace: " ++ err)
  end.

(** [migrate], from the two listings on: the namespaces are listed and
    counted, the bindings listed and filtered, then migrated and written. *)
Definition migrateListed (Encode : RoleBinding.t -> option string)
    (WriteString : list string -> string -> option (list string))
    (createErr : option string)
    (rangeOrder : gmap string nat -> list (string * nat))
    (idMap : gmap string string)
    (namespaces : list ObjectMeta.t + string) (bindings : list RoleBinding.t + string)
  : result writeState :=
  bind (getTenantNamespaces namespaces) (fun nsList =>
    bind (getTenantRoleBindings bindings) (fun rbList =>
      migrate Encode WriteString createErr rangeOrder idMap rbList)).

(** The record that one binding contributes to the returned slice. *)
Definition migrateOne (idMap : gmap string string) (rb : RoleBinding.t)
  : option RoleBinding.t :=
  match RoleBinding.Subjects rb with
  | s0 :: _ => migratedBinding rb (Subject.Name s0) <$> idMap !! Subject.Name s0
  | [] => None
  end.

(** The caller's binding after its iteration. *)
Definition renamedInPlace (idMap : gmap string string) (rb : RoleBinding.t) : RoleBinding.t :=
  match RoleBinding.Subjects rb with
  | s0 :: rest =>
      match idMap !! Subject.Name s0 with
      | Some id => setSubjects rb (Subject.setName s0 id :: rest)
      | None => rb
      end
  | [] => rb
  end.

(** The document written for an encoded binding. *)
Definition stripTimestamp (yamlData : string) : string :=
  GoStrings.ReplaceFirst yamlData
    ("metadata:" ++ newline ++ "  creationTimestamp: null") "metadata:".

(** Every entry is the non-empty result of the transform on the address
    of an account gone through that has the entry's name, and there are no
    more entries than accounts. *)
Definition fromAccounts (transform : Transform) (seen : list Unstructured)
    (idMap : gmap string string) : Prop :=
  size idMap <= length seen
  /\ forall name id, idMap !! name = Some id ->
       exists account email,
         account ∈ seen /\ GetName account = name
         /\ claimsEmail account = Some email /\ transform email = Ok id /\ id <> "".

(** An account that does not put an entry under [name]: it has another
    name, its claims are malformed, or the transform gives [""]. *)
Definition leavesName (transform : Transform) (name : string) (account : Unstructured) : Prop :=
  GetName account = name ->
  claimsEmail account = None
  \/ exists email, claimsEmail account = Some email /\ transform email = Ok "".

(** What the loop keeps true of its state after the bindings [seen]. *)
Definition writeInv (Encode : RoleBinding.t -> option string)
    (seen : list RoleBinding.t) (st : writeState) : Prop :=
  (forall k, is_Some (processedRBs st !! k) <-> exists b, b ∈ seen /\ processedRB b = k)
  /\ written st = length (writtenRBs st)
  /\ writtenRBs st `sublist_of` seen
  /\ NoDup (processedRB <$> writtenRBs st)
  /\ (forall b, b ∈ writtenRBs st -> is_Some (Encode b)).

(** * Properties *)

(** ** Sample runs *)

Example cleanEmail_jdoe : cleanEmail "jdoe+dev@redhat.com" = "jdoe@redhat.com".
Proof. reflexivity. Qed.

Example cleanEmail_two_plus : cleanEmail "a+b+t@d" = "a@d".
Proof. reflexivity. Qed.

Example cleanEmail_empty_tag : cleanEmail "a+@d" = "a+@d".
Proof. reflexivity. Qed.

Example ReplaceFirst_once :
  GoStrings.ReplaceFirst "appstudio-appstudio" "appstudio" "konflux" = "konflux-appstudio".
Proof. reflexivity. Qed.

Example ReplaceFirst_empty_old : GoStrings.ReplaceFirst "abc" "" "x" = "xabc".
Proof. reflexivity. Qed.

Example buildIDMap_jdoe :
  buildIDMap [sampleAccount "jdoe" "jdoe+dev@redhat.com"] cleanEmailT
  = Ok {[ "jdoe" := "jdoe@redhat.com" ]}.
Proof. vm_compute. reflexivity. Qed.

Example mutate_jdoe :
  migrated <$> (match mutateTenantRoleBindings mapOrder {[ "jdoe" := "jdoe@redhat.com" ]}
                  [sampleBinding "team-a" "appstudio-jdoe-admin" "jdoe" "appstudio-user"]
                with Ok m => Some m | _ => None end)
  = Some [ {| RoleBinding.Kind := "RoleBinding";
     RoleBinding.APIVersion := "rbac.authorization.k8s.io/v1";
     RoleBinding.Meta :=
       {| ObjectMeta.Name := "konflux-jdoe@redhat.com-admin";
          ObjectMeta.Namespace := "team-a";
          ObjectMeta.Labels := {[ "konflux-ci.dev/type" := "user" ]};
          ObjectMeta.Annotations := ∅;
          ObjectMeta.ResourceVersion := "";
          ObjectMeta.UID := "";
          ObjectMeta.CreationTimestamp := None;
          ObjectMeta.ManagedFields := [];
          ObjectMeta.Rest := [] |};
     RoleBinding.Subjects := [Subject.mk "User" "rbac.authorization.k8s.io" "jdoe@redhat.com" ""];
     RoleBinding.Ref := RoleRef.mk "rbac.authorization.k8s.io" "ClusterRole" "konflux-user" |} ].
Proof. vm_compute. reflexivity. Qed.

(** ** Strings *)

Module GoStringsFacts.
Import GoStrings.

Lemma app_assoc (a b c : string) : (a ++ b) ++ c = a ++ b ++ c.
Proof. induction a as [|x a IH]; simpl; [reflexivity | f_equal; exact IH]. Qed.

Lemma take_drop (n : nat) (s : string) : take n s ++ drop n s = s.
Proof.
  revert s; induction n as [|n IH]; intros [|c s]; simpl; try reflexivity.
  now rewrite IH.
Qed.

Lemma drop_app_length (a b : string) : drop (String.length a) (a ++ b) = b.
Proof. induction a as [|x a IH]; simpl; [now destruct b | exact IH]. Qed.

Lemma drop_add (n k : nat) (s : string) : drop (n + k) s = drop k (drop n s).
Proof.
  revert s; induction n as [|n IH]; intros s; simpl.
  - now destruct s.
  - destruct s as [|c s]; [now destruct k | apply IH].
Qed.

Lemma length_drop_le (n : nat) (s : string) : String.length (drop n s) <= String.length s.
Proof.
  revert s; induction n as [|n IH]; intros [|c s]; simpl; try lia.
  specialize (IH s); lia.
Qed.

Lemma HasPrefix_empty (s : string) : HasPrefix s "" = true.
Proof. now destruct s. Qed.

Lemma HasPrefix_split (s t : string) :
  HasPrefix s t = true -> s = t ++ drop (String.length t) s.
Proof.
  revert s; induction t as [|a t IH]; intros s H.
  - now destruct s.
  - destruct s as [|b s]; simpl in H; [discriminate|].
    destruct (Ascii.eqb_spec a b) as [->|]; [|discriminate].
    simpl. f_equal. now apply IH.
Qed.

Lemma HasPrefix_take (n : nat) (s t : string) :
  HasPrefix (take n s) t = true -> HasPrefix s t = true.
Proof.
  revert n s; induction t as [|a t IH]; intros n s H.
  - apply HasPrefix_empty.
  - destruct n as [|n], s as [|b s]; simpl in *; try discriminate.
    destruct (Ascii.eqb a b); [eauto | discriminate].
Qed.

(** A byte that is not in [t] stops every match of [t] that reaches it. *)
Lemma HasPrefix_app_sep (t u r : string) (k : ascii) :
  mem k t = false -> HasPrefix (u ++ String k r) t = HasPrefix u t.
Proof.
  revert u; induction t as [|a t IH]; intros u Hk.
  - now rewrite !HasPrefix_empty.
  - simpl in Hk. apply orb_false_elim in Hk as [Hka Hkt].
    destruct u as [|b u]; simpl.
    + rewrite Ascii.eqb_sym, Hka. reflexivity.
    + destruct (Ascii.eqb a b); [now apply IH | reflexivity].
Qed.

Lemma Contains_nil (t : string) : Contains "" t = HasPrefix "" t.
Proof. now destruct t. Qed.

Lemma Index_cons (c : ascii) (s t : string) :
  Index (String c s) t
  = if HasPrefix (String c s) t then Some 0 else S <$> Index s t.
Proof. reflexivity. Qed.

Lemma Contains_cons (c : ascii) (s t : string) :
  Contains (String c s) t = HasPrefix (String c s) t || Contains s t.
Proof.
  unfold Contains. rewrite Index_cons.
  destruct (HasPrefix (String c s) t); [reflexivity|].
  now destruct (Index s t).
Qed.

Lemma Contains_app_sep (t p r : string) (k : ascii) :
  mem k t = false ->
  Contains (p ++ String k r) t = Contains p t || Contains r t.
Proof.
  intros Hk. induction p as [|c p IH].
  - pose proof (HasPrefix_app_sep t "" r k Hk) as E.
    change ("" ++ String k r) with (String k r) in *.
    now rewrite Contains_cons, Contains_nil, E.
  - pose proof (HasPrefix_app_sep t (String c p) r k Hk) as E.
    change (String c p ++ String k r) with (String c (p ++ String k r)) in *.
    now rewrite !Contains_cons, IH, E, orb_assoc.
Qed.

(** The first occurrence splits the string, and nothing before it
    matches. *)
Lemma Index_Some (s t : string) (j : nat) :
  Index s t = Some j ->
  s = take j s ++ t ++ drop (j + String.length t) s
  /\ (t <> "" -> Contains (take j s) t = false).
Proof.
  revert j; induction s as [|c s IH]; intros j H;
    [change (Index "" t) with (if HasPrefix "" t then Some 0 else None) in H
    | rewrite Index_cons in H].
  - destruct (HasPrefix "" t) eqn:Hp; [|discriminate].
    injection H as <-. split.
    + simpl. now apply HasPrefix_split.
    + intros Ht. destruct t; [congruence | discriminate].
  - destruct (HasPrefix (String c s) t) eqn:Hp.
    + injection H as <-. split.
      * simpl take. simpl Nat.add. now apply HasPrefix_split.
      * intros Ht. simpl. rewrite Contains_nil. destruct t; [congruence | reflexivity].
    + destruct (Index s t) as [j'|] eqn:Hi; [|discriminate].
      injection H as <-. destruct (IH j' eq_refl) as [Hs Hn]. split.
      * simpl. f_equal. exact Hs.
      * intros Ht. simpl take. rewrite Contains_cons, (Hn Ht), orb_false_r.
        destruct (HasPrefix (String c (take j' s)) t) eqn:Hq; [|reflexivity].
        apply (HasPrefix_take (S j') (String c s)) in Hq. congruence.
Qed.

Lemma ReplaceFirst_None (s old new : string) :
  Contains s old = false -> ReplaceFirst s old new = s.
Proof. unfold Contains, ReplaceFirst. now destruct (Index s old). Qed.

(** Writing ["konflux"] in place of one ["appstudio"] creates no new
    ["appstudio"]: neither its first nor its last byte occurs in the
    old token. *)
Lemma Contains_around_konflux (p q : string) :
  Contains (p ++ "konflux" ++ q) "appstudio"
  = Contains p "appstudio" || Contains q "appstudio".
Proof.
  change (p ++ "konflux" ++ q) with (p ++ String "k" ("onflu" ++ String "x" q)).
  now rewrite !Contains_app_sep by reflexivity.
Qed.

Lemma Contains_ReplaceFirst_token (s : string) :
  Contains (ReplaceFirst s "appstudio" "konflux") "appstudio"
  = Contains (afterFirst s "appstudio") "appstudio".
Proof.
  unfold ReplaceFirst, afterFirst.
  destruct (Index s "appstudio") as [j|] eqn:Hi.
  - destruct (Index_Some _ _ _ Hi) as [_ Hn].
    rewrite Contains_around_konflux, Hn by discriminate. reflexivity.
  - unfold Contains at 1. rewrite Hi. reflexivity.
Qed.

End GoStringsFacts.

(** ** [cleanEmail] *)

Section CleanEmail.
Import GoStrings GoStringsFacts.

Lemma replaceAll_skip (n : nat) (s : string) :
  replaceAll n s = replaceAll 0 (drop n s).
Proof.
  revert n; induction s as [|c s IH]; intros [|n]; try reflexivity.
  exact (IH n).
Qed.

Lemma replaceAll_cons (c : ascii) (s : string) :
  replaceAll 0 (String c s)
  = match matchAt (String c s) with
    | Some n => String "@" (replaceAll (Nat.pred n) s)
    | None => String c (replaceAll 0 s)
    end.
Proof. reflexivity. Qed.

Lemma cleanEmail_copy (c : ascii) (s : string) :
  matchAt (String c s) = None ->
  cleanEmail (String c s) = String c (cleanEmail s).
Proof. unfold cleanEmail. intros H. now rewrite replaceAll_cons, H. Qed.

Lemma cleanEmail_match (c : ascii) (s : string) (n : nat) :
  matchAt (String c s) = Some n ->
  cleanEmail (String c s) = String "@" (cleanEmail (drop (Nat.pred n) s)).
Proof.
  unfold cleanEmail. intros H. rewrite replaceAll_cons, H.
  now rewrite replaceAll_skip.
Qed.

Lemma matchAt_plus (s : string) :
  matchAt (String "+" s)
  = match firstAt s with
    | Some (S k) => Some (S (S (S k)))
    | _ => None
    end.
Proof. reflexivity. Qed.

Lemma matchAt_not_plus (c : ascii) (s : string) :
  c <> "+"%char -> matchAt (String c s) = None.
Proof. intros H. simpl. now destruct (Ascii.eqb_spec c "+"). Qed.

Lemma firstAt_Contains (s : string) :
  Contains s "@" = match firstAt s with Some _ => true | None => false end.
Proof.
  induction s as [|c s IH]; [reflexivity|].
  rewrite Contains_cons, IH. simpl. rewrite HasPrefix_empty.
  rewrite (Ascii.eqb_sym c). destruct (Ascii.eqb "@" c); [reflexivity|].
  now destruct (firstAt s).
Qed.

Lemma firstAt_app (tag rest : string) :
  Contains tag "@" = false ->
  firstAt (tag ++ String "@" rest) = Some (String.length tag).
Proof.
  induction tag as [|c tag IH]; intros H; [reflexivity|].
  rewrite firstAt_Contains in H, IH. simpl in *.
  destruct (Ascii.eqb c "@"); [discriminate|].
  destruct (firstAt tag); [discriminate|]. now rewrite IH.
Qed.

(** Without an ["@"] nothing matches. *)
Lemma cleanEmail_no_at (s : string) : firstAt s = None -> cleanEmail s = s.
Proof.
  induction s as [|c s IH]; intros H; [reflexivity|].
  simpl in H. destruct (Ascii.eqb c "@"); [discriminate|].
  destruct (firstAt s) eqn:Hs; [discriminate|].
  rewrite cleanEmail_copy, IH; [reflexivity..|].
  simpl. rewrite Hs. now destruct (Ascii.eqb c "+").
Qed.

Lemma cleanEmail_idem_bounded (n : nat) (s : string) :
  String.length s <= n -> cleanEmail (cleanEmail s) = cleanEmail s.
Proof.
  revert s; induction n as [|n IH]; intros [|c s] Hlen; simpl in Hlen;
    try reflexivity; try lia.
  destruct (matchAt (String c s)) as [m|] eqn:Hm.
  - rewrite (cleanEmail_match _ _ _ Hm).
    rewrite cleanEmail_copy by (apply matchAt_not_plus; discriminate).
    f_equal. apply IH. pose proof (length_drop_le (Nat.pred m) s). lia.
  - rewrite (cleanEmail_copy _ _ Hm).
    destruct (Ascii.eqb_spec c "+") as [->|Hc].
    + simpl in Hm. destruct (firstAt s) as [[|k]|] eqn:Hs; try discriminate.
      * destruct s as [|d s]; [discriminate|]. simpl in Hs.
        destruct (Ascii.eqb_spec d "@") as [->|]; [|now destruct (firstAt s)].
        rewrite (cleanEmail_copy "@" s) by reflexivity.
        rewrite (cleanEmail_copy "+") by reflexivity.
        rewrite (cleanEmail_copy "@") by reflexivity.
        do 2 f_equal. apply IH. simpl in Hlen. lia.
      * rewrite (cleanEmail_no_at s Hs).
        rewrite cleanEmail_copy by (simpl; now rewrite Hs).
        now rewrite (cleanEmail_no_at s Hs).
    + rewrite cleanEmail_copy by now apply matchAt_not_plus.
      f_equal. apply IH. lia.
Qed.

Lemma cleanEmail_idempotent (s : string) : cleanEmail (cleanEmail s) = cleanEmail s.
Proof. now apply (cleanEmail_idem_bounded (String.length s)). Qed.

Lemma cleanEmail_tag (loc tag rest : string) :
  Contains loc "+" = false -> tag <> "" -> Contains tag "@" = false ->
  cleanEmail (loc ++ "+" ++ tag ++ "@" ++ rest) = loc ++ "@" ++ cleanEmail rest.
Proof.
  intros Hloc Htag Hat. induction loc as [|c loc IH].
  - change ("" ++ "+" ++ tag ++ "@" ++ rest) with (String "+" (tag ++ String "@" rest)).
    destruct tag as [|d tag]; [congruence|].
    rewrite (cleanEmail_match _ _ (3 + String.length tag)).
    + simpl Nat.pred.
      replace (S (S (String.length tag))) with (String.length (String d tag) + 1)
        by (simpl; lia).
      now rewrite drop_add, drop_app_length.
    + now rewrite matchAt_plus, (firstAt_app (String d tag) rest Hat).
  - rewrite Contains_cons in Hloc. apply orb_false_elim in Hloc as [Hc Hloc].
    simpl in Hc. rewrite HasPrefix_empty in Hc.
    change (String c loc ++ "+" ++ tag ++ "@" ++ rest)
      with (String c (loc ++ "+" ++ tag ++ "@" ++ rest)).
    rewrite cleanEmail_copy, IH by
      (try apply matchAt_not_plus; try assumption; intros ->; discriminate).
    reflexivity.
Qed.

End CleanEmail.

(** C6. For every contact address, [cleanEmail] applied twice gives what
    it gives applied once; and an address of the form [local+tag@domain]
    (the local part has no ["+"], the tag is not empty and has no ["@"],
    the domain has no ["@"]) becomes [local@domain]. *)
Theorem cleanEmail_strips_tag_and_is_idempotent (email : string) :
  cleanEmail (cleanEmail email) = cleanEmail email
  /\ forall loc tag domain : string,
       email = loc ++ "+" ++ tag ++ "@" ++ domain ->
       GoStrings.Contains loc "+" = false ->
       tag <> "" ->
       GoStrings.Contains tag "@" = false ->
       GoStrings.Contains domain "@" = false ->
       cleanEmail email = loc ++ "@" ++ domain.
Proof.
  split; [apply cleanEmail_idempotent|].
  intros loc tag domain -> Hloc Htag Hat Hdom.
  rewrite cleanEmail_tag by assumption.
  rewrite firstAt_Contains in Hdom.
  rewrite (cleanEmail_no_at domain); [reflexivity|].
  now destruct (firstAt domain).
Qed.

Lemma cleanEmail_strips_tag_witness :
  cleanEmail (cleanEmail "jdoe+dev@redhat.com") = cleanEmail "jdoe+dev@redhat.com"
  /\ cleanEmail "jdoe+dev@redhat.com" = "jdoe" ++ "@" ++ "redhat.com".
Proof.
  split.
  - exact (proj1 (cleanEmail_strips_tag_and_is_idempotent "jdoe+dev@redhat.com")).
  - apply (proj2 (cleanEmail_strips_tag_and_is_idempotent "jdoe+dev@redhat.com")
             "jdoe" "dev" "redhat.com"); [reflexivity | reflexivity | discriminate
                                         | reflexivity | reflexivity].
Defined.

(** ** Loops *)

Lemma foldM_app {A S : Type} (body : S -> A -> result S) (l1 l2 : list A) (s : S) :
  foldM body (l1 ++ l2) s = bind (foldM body l1 s) (foldM body l2).
Proof.
  revert s; induction l1 as [|x l1 IH]; intros s; simpl; [reflexivity|].
  destruct (body s x); simpl; [apply IH | reflexivity..].
Qed.

(** An invariant of the state that every iteration keeps holds of the
    state a finished loop returns. *)
Lemma foldM_invariant {A S : Type} (body : S -> A -> result S) (I : S -> Prop) :
  (forall s x s', I s -> body s x = Ok s' -> I s') ->
  forall l s s', I s -> foldM body l s = Ok s' -> I s'.
Proof.
  intros Hstep l; induction l as [|x l IH]; intros s s' Hs H; simpl in H.
  - now injection H as <-.
  - destruct (body s x) as [s1| |] eqn:Hb; simpl in H; try discriminate.
    eapply IH; [|exact H]. eapply Hstep; eauto.
Qed.

(** A loop whose iterations all return does return. *)
Lemma foldM_total {A S : Type} (body : S -> A -> result S) (l : list A) :
  (forall s x, x ∈ l -> exists s', body s x = Ok s') ->
  forall s, exists s', foldM body l s = Ok s'.
Proof.
  induction l as [|x l IH]; intros Hb s; simpl; [eauto|].
  destruct (Hb s x) as [s1 ->]; [left|]. simpl.
  apply IH. intros s2 y Hy. apply Hb. now right.
Qed.

(** ** [buildIDMap] *)

Lemma buildIDMap_body_claims (transform : Transform) (idMap : gmap string string)
    (account : Unstructured) :
  buildIDMap_body transform idMap account
  = match claimsEmail account with
    | None => Ok idMap
    | Some email =>
        bind (transform email) (fun id =>
          if String.eqb id "" then Ok idMap else Ok (<[GetName account := id]> idMap))
    end.
Proof.
  unfold buildIDMap_body, claimsEmail.
  destruct (asMap (Object account !! "spec")) as [spec|]; [|reflexivity].
  destruct (asMap (spec !! "propagatedClaims")) as [claims|]; reflexivity.
Qed.

(** C7. An account whose claims structure is missing or malformed leaves
    the map of the loop as it is and the loop goes on: the run over a batch
    that holds the account is the run over the batch without it. *)
Theorem buildIDMap_skips_malformed (transform : Transform) (account : Unstructured)
    (before after : list Unstructured) :
  malformed account ->
  (forall idMap, buildIDMap_body transform idMap account = Ok idMap)
  /\ buildIDMap (before ++ account :: after) transform
     = buildIDMap (before ++ after) transform.
Proof.
  intros Hm. assert (Hb : forall idMap, buildIDMap_body transform idMap account = Ok idMap).
  { intros idMap. rewrite buildIDMap_body_claims. unfold malformed in Hm. now rewrite Hm. }
  split; [exact Hb|]. unfold buildIDMap. rewrite !foldM_app.
  destruct (foldM (buildIDMap_body transform) before ∅) as [m| |]; simpl; try reflexivity.
  now rewrite Hb.
Qed.

Lemma buildIDMap_skips_malformed_witness :
  buildIDMap ([sampleAccount "jdoe" "jdoe+dev@redhat.com"]
                ++ noClaimsAccount "ghost" :: [sampleAccount "ann" "ann@redhat.com"]) cleanEmailT
  = buildIDMap ([sampleAccount "jdoe" "jdoe+dev@redhat.com"]
                  ++ [sampleAccount "ann" "ann@redhat.com"]) cleanEmailT.
Proof.
  apply (buildIDMap_skips_malformed cleanEmailT (noClaimsAccount "ghost")).
  vm_compute. reflexivity.
Defined.

(** C8. Whatever the batch and the transform, the map that [buildIDMap]
    returns stores no empty string; and with a transform that always
    returns, such as [cleanEmail], [buildIDMap] returns. *)
Theorem buildIDMap_no_empty_value (userAccounts : list Unstructured) (transform : Transform) :
  ((forall email, exists id, transform email = Ok id) ->
   exists idMap, buildIDMap userAccounts transform = Ok idMap)
  /\ forall idMap, buildIDMap userAccounts transform = Ok idMap ->
       forall name id, idMap !! name = Some id -> id <> "".
Proof.
  split.
  - intros Htot. apply foldM_total. intros m account _.
    rewrite buildIDMap_body_claims.
    destruct (claimsEmail account) as [email|]; [|eauto].
    destruct (Htot email) as [id ->]. simpl. destruct (String.eqb id ""); eauto.
  - intros idMap H.
    apply (foldM_invariant (buildIDMap_body transform)
             (fun m : gmap string string => forall name id, m !! name = Some id -> id <> ""))
      with (l := userAccounts) (s := ∅); [| |exact H].
    + intros m account m' Hm Hb. rewrite buildIDMap_body_claims in Hb.
      destruct (claimsEmail account) as [email|]; [|now injection Hb as <-].
      destruct (transform email) as [id| |]; simpl in Hb; try discriminate.
      destruct (String.eqb id "") eqn:Hne; injection Hb as <-; [exact Hm|].
      apply String.eqb_neq in Hne.
      intros name id'. rewrite lookup_insert.
      case_decide; [intros E; congruence | apply Hm].
    + intros name id. now rewrite lookup_empty.
Qed.

Lemma buildIDMap_no_empty_value_witness :
  exists idMap, buildIDMap [sampleAccount "jdoe" "jdoe+dev@redhat.com"] cleanEmailT = Ok idMap
                /\ forall name id, idMap !! name = Some id -> id <> "".
Proof.
  destruct (proj1 (buildIDMap_no_empty_value
                     [sampleAccount "jdoe" "jdoe+dev@redhat.com"] cleanEmailT)) as [idMap H].
  - intros email. exists (cleanEmail email). reflexivity.
  - exists idMap. split; [exact H|].
    exact (proj2 (buildIDMap_no_empty_value _ _) idMap H).
Defined.

(** ** [mutateTenantRoleBindings]: one iteration *)

Lemma track_is_Some (namespace : string) (pn : gmap string nat) :
  is_Some (track namespace pn !! namespace).
Proof.
  unfold track. destruct (pn !! namespace) eqn:E; [now rewrite E|].
  rewrite lookup_insert_eq. eauto.
Qed.

Lemma track_other (namespace ns : string) (pn : gmap string nat) :
  ns <> namespace -> track namespace pn !! ns = pn !! ns.
Proof.
  intros Hne. unfold track. destruct (pn !! namespace); [reflexivity|].
  now rewrite lookup_insert_ne.
Qed.

Lemma countOf_track (namespace ns : string) (pn : gmap string nat) :
  countOf (track namespace pn) ns = countOf pn ns.
Proof.
  unfold countOf, track. destruct (pn !! namespace) eqn:E; [reflexivity|].
  rewrite lookup_insert. case_decide; [subst; now rewrite E | reflexivity].
Qed.

Lemma mutate_body_many (idMap : gmap string string) (st : loopState) (rb : RoleBinding.t) :
  1 < length (RoleBinding.Subjects rb) ->
  mutate_body idMap st rb
  = Fatal (fatalMoreThanOne (RoleBinding.Name rb) (RoleBinding.Namespace rb)).
Proof.
  intros H. unfold mutate_body.
  destruct (Nat.ltb_spec 1 (length (RoleBinding.Subjects rb))); [reflexivity | lia].
Qed.

Lemma mutate_body_none (idMap : gmap string string) (st : loopState) (rb : RoleBinding.t) :
  RoleBinding.Subjects rb = [] -> mutate_body idMap st rb = Panic indexOutOfRange.
Proof. intros H. unfold mutate_body. now rewrite H. Qed.

Lemma mutate_body_skip (idMap : gmap string string) (st : loopState) (rb : RoleBinding.t)
    (s0 : Subject.t) :
  RoleBinding.Subjects rb = [s0] -> idMap !! Subject.Name s0 = None ->
  mutate_body idMap st rb
  = Ok {| mrbList := mrbList st;
          processedNamespaces := track (RoleBinding.Namespace rb) (processedNamespaces st);
          rbListSeen := rbListSeen st ++ [rb] |}.
Proof.
  intros H Hid. unfold mutate_body. rewrite H.
  change ([s0] !! 0) with (Some s0). cbv beta iota zeta. now rewrite Hid.
Qed.

Lemma migratedBinding_Subjects (rb : RoleBinding.t) (s0 : Subject.t) (user id : string) :
  RoleBinding.Subjects rb = [s0] ->
  RoleBinding.Subjects (migratedBinding rb user id) = [Subject.setName s0 id].
Proof. intros H. unfold migratedBinding. cbn [RoleBinding.Subjects]. now rewrite H. Qed.

Lemma mutate_body_hit (idMap : gmap string string) (st : loopState) (rb : RoleBinding.t)
    (s0 : Subject.t) (id : string) :
  RoleBinding.Subjects rb = [s0] -> idMap !! Subject.Name s0 = Some id ->
  mutate_body idMap st rb
  = Ok {| mrbList := mrbList st ++ [migratedBinding rb (Subject.Name s0) id];
          processedNamespaces :=
            <[RoleBinding.Namespace rb :=
                S (countOf (processedNamespaces st) (RoleBinding.Namespace rb))]>
              (track (RoleBinding.Namespace rb) (processedNamespaces st));
          rbListSeen := rbListSeen st
                          ++ [setSubjects rb [Subject.setName s0 id]] |}.
Proof.
  intros H Hid.
  rewrite <- (migratedBinding_Subjects rb s0 (Subject.Name s0) id H).
  rewrite <- (countOf_track (RoleBinding.Namespace rb)).
  unfold mutate_body. rewrite H.
  change ([s0] !! 0) with (Some s0). cbv beta iota zeta. now rewrite Hid.
Qed.

(** The four ways through the loop body, by the number of subjects. *)
Lemma mutate_body_cases (idMap : gmap string string) (st : loopState) (rb : RoleBinding.t) :
  (RoleBinding.Subjects rb = [] /\ mutate_body idMap st rb = Panic indexOutOfRange)
  \/ (1 < length (RoleBinding.Subjects rb)
      /\ mutate_body idMap st rb
         = Fatal (fatalMoreThanOne (RoleBinding.Name rb) (RoleBinding.Namespace rb)))
  \/ (exists s0, RoleBinding.Subjects rb = [s0] /\ idMap !! Subject.Name s0 = None
      /\ mutate_body idMap st rb
         = Ok {| mrbList := mrbList st;
                 processedNamespaces := track (RoleBinding.Namespace rb) (processedNamespaces st);
                 rbListSeen := rbListSeen st ++ [rb] |})
  \/ (exists s0 id, RoleBinding.Subjects rb = [s0] /\ idMap !! Subject.Name s0 = Some id
      /\ mutate_body idMap st rb
         = Ok {| mrbList := mrbList st ++ [migratedBinding rb (Subject.Name s0) id];
                 processedNamespaces :=
                   <[RoleBinding.Namespace rb :=
                       S (countOf (processedNamespaces st) (RoleBinding.Namespace rb))]>
                     (track (RoleBinding.Namespace rb) (processedNamespaces st));
                 rbListSeen := rbListSeen st
                                 ++ [setSubjects rb [Subject.setName s0 id]] |}).
Proof.
  destruct (RoleBinding.Subjects rb) as [|s0 [|s1 rest]] eqn:Hs.
  - left. split; [reflexivity | now apply mutate_body_none].
  - right; right.
    destruct (idMap !! Subject.Name s0) as [id|] eqn:Hid.
    + right. exists s0, id. repeat split; try assumption.
      now apply (mutate_body_hit idMap st rb s0 id).
    + left. exists s0. repeat split; try assumption.
      now apply (mutate_body_skip idMap st rb s0).
  - right; left. split; [simpl; lia|]. apply mutate_body_many. rewrite Hs. simpl. lia.
Qed.

(** ** [mutateTenantRoleBindings]: when the run ends early *)

Lemma oneSubject_inv (rb : RoleBinding.t) :
  oneSubject rb -> exists s0, RoleBinding.Subjects rb = [s0].
Proof.
  unfold oneSubject. destruct (RoleBinding.Subjects rb) as [|s0 [|s1 rest]];
    simpl; intros H; try discriminate. eauto.
Qed.

Lemma mutate_body_Ok_inv (idMap : gmap string string) (st st' : loopState) (rb : RoleBinding.t) :
  mutate_body idMap st rb = Ok st' -> oneSubject rb.
Proof.
  intros H. unfold oneSubject.
  destruct (mutate_body_cases idMap st rb)
    as [[_ E]|[[_ E]|[(s0 & -> & _)|(s0 & id & -> & _)]]]; congruence || reflexivity.
Qed.

Lemma mutate_body_total (idMap : gmap string string) (st : loopState) (rb : RoleBinding.t) :
  oneSubject rb -> exists st', mutate_body idMap st rb = Ok st'.
Proof.
  intros [s0 Hs]%oneSubject_inv.
  destruct (idMap !! Subject.Name s0) as [id|] eqn:Hid.
  - rewrite (mutate_body_hit idMap st rb s0 id Hs Hid). eauto.
  - rewrite (mutate_body_skip idMap st rb s0 Hs Hid). eauto.
Qed.

(** The loop runs to its end exactly when every binding has one subject. *)
Lemma mutate_loop_Ok_iff (idMap : gmap string string) (l : list RoleBinding.t) (st : loopState) :
  (exists st', foldM (mutate_body idMap) l st = Ok st') <-> Forall oneSubject l.
Proof.
  split.
  - revert st; induction l as [|rb l IH]; intros st [st' H]; [constructor|].
    simpl in H. destruct (mutate_body idMap st rb) as [st1| |] eqn:Hb; try discriminate.
    constructor; [eapply mutate_body_Ok_inv; eauto | eapply IH; eauto].
  - intros Hall. apply foldM_total. intros s rb Hin.
    apply mutate_body_total. rewrite Forall_forall in Hall. now apply Hall.
Qed.

(** The loop stops at the first binding that does not have one subject. *)
Lemma mutate_loop_stops (idMap : gmap string string) (before after : list RoleBinding.t)
    (rb : RoleBinding.t) (st : loopState) :
  Forall oneSubject before -> ~ oneSubject rb ->
  exists st', foldM (mutate_body idMap) (before ++ rb :: after) st = mutate_body idMap st' rb
              /\ is_Ok (mutate_body idMap st' rb) = false.
Proof.
  intros Hall Hrb.
  destruct (proj2 (mutate_loop_Ok_iff idMap before st) Hall) as [st' Hst'].
  exists st'. rewrite foldM_app, Hst'. simpl.
  destruct (mutate_body idMap st' rb) as [st2| |] eqn:Hb; try (split; reflexivity).
  exfalso. apply Hrb. eapply mutate_body_Ok_inv; eauto.
Qed.

(** A list with a binding that does not have one subject splits at the
    first such binding. *)
Lemma first_not_oneSubject (l : list RoleBinding.t) :
  ~ Forall oneSubject l ->
  exists before rb after,
    l = (before ++ rb :: after)%list /\ Forall oneSubject before /\ ~ oneSubject rb.
Proof.
  induction l as [|x l IH]; intros H; [destruct H; constructor|].
  destruct (decide (oneSubject x)) as [Hx|Hx].
  - destruct IH as (before & rb & after & -> & Hb & Hrb).
    + intros Hl. apply H. now constructor.
    + exists (x :: before), rb, after. repeat split; [now constructor | exact Hrb].
  - exists [], x, l. repeat split; [constructor | exact Hx].
Qed.

Lemma mutateTenantRoleBindings_loop (rangeOrder : gmap string nat -> list (string * nat))
    (idMap : gmap string string) (rbList : list RoleBinding.t) :
  mutateTenantRoleBindings rangeOrder idMap rbList
  = match mutate_loop idMap rbList with
    | Ok st =>
        Ok {| migrated := mrbList st;
              orphans := orphanReport rangeOrder (processedNamespaces st);
              orphanCount := length (orphanReport rangeOrder (processedNamespaces st));
              rbListAfter := rbListSeen st |}
    | Fatal msg => Fatal msg
    | Panic msg => Panic msg
    end.
Proof. reflexivity. Qed.

(** How a run over a list with a binding that does not have one subject
    ends: at the first such binding, fatally if it has several subjects and
    by the panic of the index expression if it has none. *)
Lemma mutate_run_stops (rangeOrder : gmap string nat -> list (string * nat))
    (idMap : gmap string string) (rbList : list RoleBinding.t) :
  ~ Forall oneSubject rbList ->
  exists before rb after,
    rbList = (before ++ rb :: after)%list /\ Forall oneSubject before
    /\ ((1 < length (RoleBinding.Subjects rb)
         /\ mutateTenantRoleBindings rangeOrder idMap rbList
            = Fatal (fatalMoreThanOne (RoleBinding.Name rb) (RoleBinding.Namespace rb)))
        \/ (RoleBinding.Subjects rb = []
            /\ mutateTenantRoleBindings rangeOrder idMap rbList = Panic indexOutOfRange)).
Proof.
  intros (before & rb & after & -> & Hb & Hrb)%first_not_oneSubject.
  exists before, rb, after. split; [reflexivity|]. split; [exact Hb|].
  destruct (mutate_loop_stops idMap before after rb (mkLoop [] ∅ []) Hb Hrb) as (st' & E & _).
  rewrite mutateTenantRoleBindings_loop. unfold mutate_loop. rewrite E.
  destruct (mutate_body_cases idMap st' rb)
    as [[Hs ->]|[[Hs ->]|[(s0 & Hs & _)|(s0 & id & Hs & _)]]].
  - right. now split.
  - left. now split.
  - exfalso. apply Hrb. unfold oneSubject. now rewrite Hs.
  - exfalso. apply Hrb. unfold oneSubject. now rewrite Hs.
Qed.

Lemma not_oneSubject_several (rbList : list RoleBinding.t) (rb : RoleBinding.t) :
  rb ∈ rbList -> 1 < length (RoleBinding.Subjects rb) -> ~ Forall oneSubject rbList.
Proof.
  intros Hin Hlen Hall. rewrite Forall_forall in Hall.
  specialize (Hall rb Hin). unfold oneSubject in Hall. lia.
Qed.

(** C3. When some binding of the input has more than one subject, the
    call does not return: it ends the process, so [migrate] never reaches
    the writer and no binding of the run is written.  When no binding of
    the input is without subjects, the end is the [log.Fatalf] of a binding
    with several subjects. *)
Theorem transform_aborts_on_several_subjects
    (rangeOrder : gmap string nat -> list (string * nat))
    (Encode : RoleBinding.t -> option string)
    (WriteString : list string -> string -> option (list string))
    (createErr : option string)
    (idMap : gmap string string) (rbList : list RoleBinding.t) (rb : RoleBinding.t) :
  rb ∈ rbList -> 1 < length (RoleBinding.Subjects rb) ->
  aborted (mutateTenantRoleBindings rangeOrder idMap rbList) = true
  /\ aborted (migrate Encode WriteString createErr rangeOrder idMap rbList) = true
  /\ (Forall (fun b => RoleBinding.Subjects b <> []) rbList ->
      exists b, b ∈ rbList /\ 1 < length (RoleBinding.Subjects b)
                /\ mutateTenantRoleBindings rangeOrder idMap rbList
                   = Fatal (fatalMoreThanOne (RoleBinding.Name b) (RoleBinding.Namespace b))).
Proof.
  intros Hin Hlen.
  destruct (mutate_run_stops rangeOrder idMap rbList (not_oneSubject_several _ _ Hin Hlen))
    as (before & b & after & Hl & _ & [[Hb E]|[Hb E]]); unfold migrate; rewrite E.
  - repeat split; try reflexivity. intros _. exists b. subst rbList.
    repeat split; [apply elem_of_app; right; left | exact Hb].
  - repeat split; try reflexivity. intros Hall. exfalso.
    rewrite Forall_forall in Hall. apply (Hall b); [|exact Hb].
    subst rbList. apply elem_of_app; right; left.
Qed.

Lemma transform_aborts_on_several_subjects_witness :
  let rb := addSubject (sampleBinding "team-a" "appstudio-jdoe-admin" "jdoe" "appstudio-user")
              "ann" in
  aborted (mutateTenantRoleBindings mapOrder {[ "jdoe" := "jdoe@redhat.com" ]}
             [sampleBinding "team-b" "appstudio-jdoe-view" "jdoe" "appstudio-user"; rb]) = true.
Proof.
  intros rb.
  apply (transform_aborts_on_several_subjects mapOrder (fun _ => None) writesAll None
           {[ "jdoe" := "jdoe@redhat.com" ]} _ rb).
  - right; left.
  - simpl. lia.
Defined.

(** C10. The loop body checks only for more than one subject and then
    reads [rb.Subjects[0]]: on a binding without subjects that read
    panics.  A run that returns had no such binding; a run over bindings
    that all have a subject does not panic; and a run panics at a binding
    without subjects when every binding before it has one subject. *)
Theorem zero_subjects_reach_unguarded_index
    (rangeOrder : gmap string nat -> list (string * nat))
    (idMap : gmap string string) (rbList : list RoleBinding.t) :
  (forall st rb, RoleBinding.Subjects rb = [] ->
                 mutate_body idMap st rb = Panic indexOutOfRange)
  /\ ((exists out, mutateTenantRoleBindings rangeOrder idMap rbList = Ok out) ->
      Forall (fun b => RoleBinding.Subjects b <> []) rbList)
  /\ (Forall (fun b => RoleBinding.Subjects b <> []) rbList ->
      forall msg, mutateTenantRoleBindings rangeOrder idMap rbList <> Panic msg)
  /\ (forall before rb after,
        rbList = (before ++ rb :: after)%list -> Forall oneSubject before ->
        RoleBinding.Subjects rb = [] ->
        mutateTenantRoleBindings rangeOrder idMap rbList = Panic indexOutOfRange).
Proof.
  split; [intros st rb; apply mutate_body_none|].
  split; [|split].
  - intros [out H]. rewrite mutateTenantRoleBindings_loop in H.
    destruct (mutate_loop idMap rbList) as [st| |] eqn:Hl; try discriminate.
    assert (Hall : Forall oneSubject rbList)
      by (apply (mutate_loop_Ok_iff idMap rbList (mkLoop [] ∅ [])); eauto).
    eapply Forall_impl; [exact Hall|]. intros b Hb Hs. unfold oneSubject in Hb.
    now rewrite Hs in Hb.
  - intros Hne msg.
    destruct (decide (Forall oneSubject rbList)) as [Hall|Hall].
    + apply (mutate_loop_Ok_iff idMap rbList (mkLoop [] ∅ [])) in Hall as [st Hst].
      rewrite mutateTenantRoleBindings_loop. unfold mutate_loop. now rewrite Hst.
    + destruct (mutate_run_stops rangeOrder idMap rbList Hall)
        as (before & b & after & Hl & _ & [[Hb ->]|[Hb _]]); [discriminate|].
      exfalso. rewrite Forall_forall in Hne. apply (Hne b); [|exact Hb].
      subst rbList. apply elem_of_app; right; left.
  - intros before rb after -> Hall Hs.
    assert (Hrb : ~ oneSubject rb) by (unfold oneSubject; now rewrite Hs).
    destruct (mutate_loop_stops idMap before after rb (mkLoop [] ∅ []) Hall Hrb) as (st' & E & _).
    rewrite mutateTenantRoleBindings_loop. unfold mutate_loop. rewrite E.
    now rewrite (mutate_body_none idMap st' rb Hs).
Qed.

Lemma zero_subjects_reach_unguarded_index_witness :
  let rb := noSubjects (sampleBinding "team-a" "appstudio-jdoe-admin" "jdoe" "appstudio-user") in
  mutateTenantRoleBindings mapOrder {[ "jdoe" := "jdoe@redhat.com" ]}
    [sampleBinding "team-b" "appstudio-jdoe-view" "jdoe" "appstudio-user"; rb]
  = Panic indexOutOfRange.
Proof.
  intros rb.
  apply (proj2 (proj2 (proj2 (zero_subjects_reach_unguarded_index mapOrder
                                {[ "jdoe" := "jdoe@redhat.com" ]} _)))
           [sampleBinding "team-b" "appstudio-jdoe-view" "jdoe" "appstudio-user"] rb []).
  - reflexivity.
  - repeat constructor.
  - reflexivity.
Defined.

(** ** [mutateTenantRoleBindings]: the migrated record *)

Lemma mutate_body_grows (idMap : gmap string string) (st st' : loopState) (rb : RoleBinding.t) :
  mutate_body idMap st rb = Ok st' -> exists more, mrbList st' = (mrbList st ++ more)%list.
Proof.
  intros H.
  destruct (mutate_body_cases idMap st rb)
    as [[_ E]|[[_ E]|[(s0 & _ & _ & E)|(s0 & id & _ & _ & E)]]];
    rewrite E in H; try discriminate; injection H as <-; simpl.
  - exists []. now rewrite app_nil_r.
  - eauto.
Qed.

Lemma mutate_loop_grows (idMap : gmap string string) (l : list RoleBinding.t)
    (st st' : loopState) :
  foldM (mutate_body idMap) l st = Ok st' -> exists more, mrbList st' = (mrbList st ++ more)%list.
Proof.
  revert st; induction l as [|rb l IH]; intros st H; simpl in H.
  - injection H as <-. exists []. now rewrite app_nil_r.
  - destruct (mutate_body idMap st rb) as [st1| |] eqn:Hb; try discriminate.
    destruct (mutate_body_grows _ _ _ _ Hb) as [m1 E1].
    destruct (IH _ H) as [m2 E2]. exists (m1 ++ m2)%list.
    now rewrite E2, E1, List.app_assoc.
Qed.

(** C1, as the code has it.  For a binding whose one subject is a key of
    the mapping the loop body appends one record.  Its role kind is
    ["ClusterRole"].  Its role name is the old one with the first
    ["appstudio"] replaced by ["konflux"], and its name is the old one with
    the first ["appstudio"] replaced and then the first occurrence of the
    subject name replaced by the identity.  The new role name contains
    ["appstudio"] exactly when the old one contains it again after its
    first occurrence; so does the name before the subject is replaced, and
    the record's name too when the subject name does not occur in it. *)
Theorem migrated_record_rewrites_first_token
    (idMap : gmap string string) (st : loopState) (rb : RoleBinding.t)
    (s0 : Subject.t) (id : string) :
  RoleBinding.Subjects rb = [s0] -> idMap !! Subject.Name s0 = Some id ->
  exists st' m,
    mutate_body idMap st rb = Ok st'
    /\ mrbList st' = (mrbList st ++ [m])%list
    /\ RoleRef.Kind (RoleBinding.Ref m) = "ClusterRole"
    /\ RoleRef.Name (RoleBinding.Ref m)
       = GoStrings.ReplaceFirst (RoleRef.Name (RoleBinding.Ref rb)) "appstudio" "konflux"
    /\ RoleBinding.Name m
       = GoStrings.ReplaceFirst
           (GoStrings.ReplaceFirst (RoleBinding.Name rb) "appstudio" "konflux")
           (Subject.Name s0) id
    /\ GoStrings.Contains (RoleRef.Name (RoleBinding.Ref m)) "appstudio"
       = GoStrings.Contains
           (GoStrings.afterFirst (RoleRef.Name (RoleBinding.Ref rb)) "appstudio") "appstudio"
    /\ GoStrings.Contains
         (GoStrings.ReplaceFirst (RoleBinding.Name rb) "appstudio" "konflux") "appstudio"
       = GoStrings.Contains (GoStrings.afterFirst (RoleBinding.Name rb) "appstudio") "appstudio"
    /\ (GoStrings.Contains
          (GoStrings.ReplaceFirst (RoleBinding.Name rb) "appstudio" "konflux")
          (Subject.Name s0) = false ->
        GoStrings.Contains (RoleBinding.Name m) "appstudio"
        = GoStrings.Contains (GoStrings.afterFirst (RoleBinding.Name rb) "appstudio") "appstudio")
    /\ forall rangeOrder before after out,
         mutateTenantRoleBindings rangeOrder idMap (before ++ rb :: after) = Ok out ->
         m ∈ migrated out.
Proof.
  intros Hs Hid. eexists _, (migratedBinding rb (Subject.Name s0) id).
  split; [exact (mutate_body_hit idMap st rb s0 id Hs Hid)|].
  split; [reflexivity|]. split; [reflexivity|]. split; [reflexivity|].
  split; [reflexivity|].
  split; [apply GoStringsFacts.Contains_ReplaceFirst_token|].
  split; [apply GoStringsFacts.Contains_ReplaceFirst_token|].
  split.
  - intros Hno. unfold migratedBinding, RoleBinding.Name at 1. cbn [RoleBinding.Meta ObjectMeta.Name].
    rewrite (GoStringsFacts.ReplaceFirst_None _ _ _ Hno).
    apply GoStringsFacts.Contains_ReplaceFirst_token.
  - intros rangeOrder before after out H.
    rewrite mutateTenantRoleBindings_loop in H. unfold mutate_loop in H.
    rewrite foldM_app in H.
    destruct (foldM (mutate_body idMap) before _) as [st1| |]; try discriminate.
    simpl in H. rewrite (mutate_body_hit idMap st1 rb s0 id Hs Hid) in H. simpl in H.
    destruct (foldM (mutate_body idMap) after _) as [st2| |] eqn:Hafter; try discriminate.
    injection H as <-. simpl.
    destruct (mutate_loop_grows _ _ _ _ Hafter) as [more ->]. simpl.
    rewrite !elem_of_app. left; right; left.
Qed.

Lemma migrated_record_rewrites_first_token_witness :
  exists m,
    m ∈ [migratedBinding (sampleBinding "team-a" "appstudio-jdoe-admin" "jdoe" "appstudio-user")
           "jdoe" "jdoe@redhat.com"]
    /\ RoleRef.Kind (RoleBinding.Ref m) = "ClusterRole"
    /\ RoleRef.Name (RoleBinding.Ref m) = "konflux-user"
    /\ RoleBinding.Name m = "konflux-jdoe@redhat.com-admin".
Proof.
  assert (Hid : ({[ "jdoe" := "jdoe@redhat.com" ]} : gmap string string) !! "jdoe"
                = Some "jdoe@redhat.com") by (vm_compute; reflexivity).
  destruct (migrated_record_rewrites_first_token {[ "jdoe" := "jdoe@redhat.com" ]}
              (mkLoop [] ∅ [])
              (sampleBinding "team-a" "appstudio-jdoe-admin" "jdoe" "appstudio-user")
              (Subject.mk "User" "rbac.authorization.k8s.io" "jdoe" "") "jdoe@redhat.com"
              eq_refl Hid)
    as (st' & m & Hb & Hl & Hk & Hr & Hn & _).
  exists m. split; [|split; [exact Hk|split; [exact Hr | exact Hn]]].
  injection Hb as <-. simpl in Hl. injection Hl as <-. left.
Defined.

(** C1 as stated fails: only the first ["appstudio"] is replaced. *)
Lemma migrated_record_keeps_second_token :
  exists out m,
    mutateTenantRoleBindings mapOrder {[ "jdoe" := "jdoe@redhat.com" ]}
      [sampleBinding "team-a" "appstudio-jdoe-appstudio" "jdoe" "appstudio-appstudio-user"]
    = Ok out
    /\ migrated out = [m]
    /\ RoleRef.Name (RoleBinding.Ref m) = "konflux-appstudio-user"
    /\ RoleBinding.Name m = "konflux-jdoe@redhat.com-appstudio"
    /\ GoStrings.Contains (RoleRef.Name (RoleBinding.Ref m)) "appstudio" = true
    /\ GoStrings.Contains (RoleBinding.Name m) "appstudio" = true.
Proof.
  eexists _, _. split; [vm_compute; reflexivity|].
  split; [reflexivity|]. repeat split; vm_compute; reflexivity.
Qed.

(** ** [writeMigratedRoleBindings] *)

Lemma write_body_seen (Encode : RoleBinding.t -> option string)
    (WriteString : list string -> string -> option (list string))
    (st : writeState) (rb : RoleBinding.t) :
  is_Some (processedRBs st !! processedRB rb) -> write_body Encode WriteString st rb = st.
Proof. intros [n H]. unfold write_body. now rewrite H. Qed.

(** A binding of a new key: the key is marked whatever happens next, and
    the binding is written when it is encoded and both writes succeed. *)
Lemma write_body_new (Encode : RoleBinding.t -> option string)
    (WriteString : list string -> string -> option (list string))
    (st : writeState) (rb : RoleBinding.t) :
  processedRBs st !! processedRB rb = None ->
  processedRBs (write_body Encode WriteString st rb)
  = <[processedRB rb := 1]> (processedRBs st)
  /\ ((writtenRBs (write_body Encode WriteString st rb) = writtenRBs st
       /\ written (write_body Encode WriteString st rb) = written st)
      \/ (writtenRBs (write_body Encode WriteString st rb) = (writtenRBs st ++ [rb])%list
          /\ written (write_body Encode WriteString st rb) = S (written st)
          /\ exists yamlData,
               Encode rb = Some yamlData
               /\ WriteString (file st) separator = None
               /\ WriteString (file st ++ [separator])%list (stripTimestamp yamlData) = None
               /\ file (write_body Encode WriteString st rb)
                  = (file st ++ [separator; stripTimestamp yamlData])%list)).
Proof.
  intros H. unfold write_body. rewrite H.
  destruct (WriteString (file st) separator) as [f1|] eqn:Hsep;
    [split; [reflexivity | left; split; reflexivity]|].
  destruct (Encode rb) as [y|]; [|split; [reflexivity | left; split; reflexivity]].
  fold (stripTimestamp y).
  destruct (WriteString (file st ++ [separator])%list (stripTimestamp y)) as [f2|] eqn:Hdoc;
    [split; [reflexivity | left; split; reflexivity]|].
  split; [reflexivity|]. right. split; [reflexivity|]. split; [reflexivity|].
  exists y. repeat split; try assumption. cbn [file]. now rewrite <- List.app_assoc.
Qed.

(** When no write fails the body is the one of a file that takes every
    chunk. *)
Lemma write_body_new_all (Encode : RoleBinding.t -> option string)
    (WriteString : list string -> string -> option (list string))
    (st : writeState) (rb : RoleBinding.t) :
  noWriteError WriteString ->
  processedRBs st !! processedRB rb = None ->
  write_body Encode WriteString st rb
  = match Encode rb with
    | Some yamlData =>
        mkWrite (<[processedRB rb := 1]> (processedRBs st)) (S (written st))
                (file st ++ [separator; stripTimestamp yamlData])
                (writtenRBs st ++ [rb])
    | None =>
        mkWrite (<[processedRB rb := 1]> (processedRBs st)) (written st)
                (file st ++ [separator]) (writtenRBs st)
    end.
Proof.
  intros Hok H. unfold write_body. rewrite H, Hok.
  destruct (Encode rb) as [y|]; [|reflexivity].
  fold (stripTimestamp y). now rewrite Hok, <- List.app_assoc.
Qed.

Lemma write_body_marks (Encode : RoleBinding.t -> option string)
    (WriteString : list string -> string -> option (list string))
    (st : writeState) (rb : RoleBinding.t) :
  is_Some (processedRBs (write_body Encode WriteString st rb) !! processedRB rb).
Proof.
  destruct (processedRBs st !! processedRB rb) as [n|] eqn:Hseen.
  - rewrite write_body_seen; rewrite Hseen; eauto.
  - destruct (write_body_new Encode WriteString st rb Hseen) as [-> _].
    rewrite lookup_insert_eq. eauto.
Qed.

(** The error paths of the writer: a file that cannot be created is
    fatal, and on a file that takes no write every key is marked and
    nothing is counted as written. *)
Example write_error_paths :
  let rb1 := sampleBinding "team-a" "konflux-jdoe-admin" "jdoe" "konflux-admin" in
  let Encode := fun rb : RoleBinding.t => Some (RoleBinding.Name rb) in
  writeMigratedRoleBindings Encode writesAll (Some "permission denied") [rb1]
  = Fatal ("Failed to create file: permission denied" ++ newline)
  /\ result_map written (writeMigratedRoleBindings Encode writesNothing None [rb1]) = Ok 0
  /\ result_map written (writeMigratedRoleBindings Encode writesAll None [rb1]) = Ok 1.
Proof. repeat split; vm_compute; reflexivity. Qed.

(** C2, at an input where the code and the claim part.  The two bindings
    differ in namespace and in name, but [fmt.Sprintf("(%s-%s)", ...)]
    gives both the key ["(team-a-admin)"]: the second is taken for a
    duplicate of the first, and whatever the encoder and the file system
    do the call ends as it does on the first binding alone.  When every
    write succeeds, the first is the one binding written if it can be
    encoded, although the second alone would be written. *)
Theorem write_key_collision (Encode : RoleBinding.t -> option string)
    (WriteString : list string -> string -> option (list string))
    (createErr : option string) :
  let rb1 := sampleBinding "team-a" "admin" "ann@redhat.com" "konflux-admin" in
  let rb2 := sampleBinding "team" "a-admin" "bob@redhat.com" "konflux-admin" in
  (RoleBinding.Namespace rb1, RoleBinding.Name rb1)
    <> (RoleBinding.Namespace rb2, RoleBinding.Name rb2)
  /\ processedRB rb1 = processedRB rb2
  /\ writeMigratedRoleBindings Encode WriteString createErr [rb1; rb2]
     = writeMigratedRoleBindings Encode WriteString createErr [rb1]
  /\ result_map writtenRBs (writeMigratedRoleBindings Encode writesAll None [rb1; rb2])
     = Ok (match Encode rb1 with Some _ => [rb1] | None => [] end)
  /\ result_map writtenRBs (writeMigratedRoleBindings Encode writesAll None [rb2])
     = Ok (match Encode rb2 with Some _ => [rb2] | None => [] end).
Proof.
  intros rb1 rb2. split; [discriminate|]. split; [reflexivity|].
  assert (Hskip : forall W, write_loop Encode W [rb1; rb2] = write_loop Encode W [rb1]).
  { intros W. unfold write_loop. cbn [fold_left].
    apply write_body_seen. change (processedRB rb2) with (processedRB rb1).
    apply write_body_marks. }
  assert (Hall : noWriteError writesAll) by (intros chunks s0; reflexivity).
  split; [unfold writeMigratedRoleBindings; now rewrite Hskip|].
  unfold writeMigratedRoleBindings, result_map. cbn [bind]. rewrite Hskip.
  unfold write_loop. cbn [fold_left].
  rewrite !(write_body_new_all Encode writesAll _ _ Hall) by apply lookup_empty.
  split; [now destruct (Encode rb1) | now destruct (Encode rb2)].
Qed.

(** ** [mutateTenantRoleBindings]: the counts *)

Lemma countOf_insert (pn : gmap string nat) (namespace ns : string) (n : nat) :
  countOf (<[namespace := n]> pn) ns = if decide (namespace = ns) then n else countOf pn ns.
Proof. unfold countOf. rewrite lookup_insert. now case_decide. Qed.

Lemma track_mono (namespace ns : string) (pn : gmap string nat) :
  is_Some (pn !! ns) -> is_Some (track namespace pn !! ns).
Proof.
  intros H. destruct (decide (ns = namespace)) as [->|Hne];
    [apply track_is_Some | now rewrite track_other].
Qed.

Lemma sameMigration_body (idMap : gmap string string) (namespace : string)
    (st1 st2 : loopState) (rb : RoleBinding.t) :
  sameMigration namespace st1 st2 ->
  result_rel (sameMigration namespace) (mutate_body idMap st1 rb) (mutate_body idMap st2 rb).
Proof.
  intros (Hm & Hc & Ht).
  destruct (mutate_body_cases idMap st1 rb)
    as [[Hs ->]|[[Hs ->]|[(s0 & Hs & Hid & ->)|(s0 & id & Hs & Hid & ->)]]].
  - now rewrite (mutate_body_none idMap st2 rb Hs).
  - now rewrite (mutate_body_many idMap st2 rb Hs).
  - rewrite (mutate_body_skip idMap st2 rb s0 Hs Hid).
    unfold result_rel, sameMigration. cbn [mrbList processedNamespaces].
    split; [exact Hm|]. split; [|now apply track_mono].
    intros ns. now rewrite !countOf_track.
  - rewrite (mutate_body_hit idMap st2 rb s0 id Hs Hid).
    unfold result_rel, sameMigration. cbn [mrbList processedNamespaces].
    split; [now rewrite Hm|]. split.
    + intros ns. rewrite !countOf_insert, !countOf_track, !Hc. reflexivity.
    + rewrite lookup_insert. case_decide; [eauto | now apply track_mono].
Qed.

Lemma sameMigration_loop (idMap : gmap string string) (namespace : string)
    (l : list RoleBinding.t) (st1 st2 : loopState) :
  sameMigration namespace st1 st2 ->
  result_rel (sameMigration namespace)
    (foldM (mutate_body idMap) l st1) (foldM (mutate_body idMap) l st2).
Proof.
  revert st1 st2; induction l as [|rb l IH]; intros st1 st2 H; [exact H|].
  simpl. pose proof (sameMigration_body idMap namespace st1 st2 rb H) as Hb.
  destruct (mutate_body idMap st1 rb), (mutate_body idMap st2 rb);
    simpl in *; try contradiction; auto.
Qed.

(** C4. A binding whose one subject is not a key of the mapping goes
    through the loop body without a new record and without a change of
    any count, and its namespace is tracked afterwards.  The whole run with
    the binding ends as the run without it: the same migrated bindings and
    the same counts, or the same early end. *)
Theorem unresolved_subject_is_dropped
    (rangeOrder : gmap string nat -> list (string * nat))
    (idMap : gmap string string) (before after : list RoleBinding.t)
    (rb : RoleBinding.t) (s0 : Subject.t) :
  RoleBinding.Subjects rb = [s0] -> idMap !! Subject.Name s0 = None ->
  (forall st, exists st',
      mutate_body idMap st rb = Ok st'
      /\ mrbList st' = mrbList st
      /\ (forall ns, countOf (processedNamespaces st') ns = countOf (processedNamespaces st) ns)
      /\ is_Some (processedNamespaces st' !! RoleBinding.Namespace rb))
  /\ result_rel (sameMigration (RoleBinding.Namespace rb))
       (mutate_loop idMap (before ++ rb :: after)) (mutate_loop idMap (before ++ after))
  /\ result_map migrated (mutateTenantRoleBindings rangeOrder idMap (before ++ rb :: after))
     = result_map migrated (mutateTenantRoleBindings rangeOrder idMap (before ++ after)).
Proof.
  intros Hs Hid.
  assert (Hstep : forall st, exists st',
      mutate_body idMap st rb = Ok st'
      /\ mrbList st' = mrbList st
      /\ (forall ns, countOf (processedNamespaces st') ns = countOf (processedNamespaces st) ns)
      /\ is_Some (processedNamespaces st' !! RoleBinding.Namespace rb)).
  { intros st. eexists. split; [exact (mutate_body_skip idMap st rb s0 Hs Hid)|].
    simpl. split; [reflexivity|]. split; [intros ns; apply countOf_track|].
    apply track_is_Some. }
  assert (Hrel : result_rel (sameMigration (RoleBinding.Namespace rb))
            (mutate_loop idMap (before ++ rb :: after)) (mutate_loop idMap (before ++ after))).
  { unfold mutate_loop. rewrite !foldM_app.
    destruct (foldM (mutate_body idMap) before _) as [st| |]; simpl; try reflexivity.
    destruct (Hstep st) as (st' & -> & Hm & Hc & Ht). simpl.
    apply sameMigration_loop. now split. }
  split; [exact Hstep|]. split; [exact Hrel|].
  rewrite !mutateTenantRoleBindings_loop.
  destruct (mutate_loop idMap (before ++ rb :: after)),
    (mutate_loop idMap (before ++ after)); simpl in Hrel; try contradiction;
    unfold result_map; simpl; try congruence.
  destruct Hrel as [-> _]. reflexivity.
Qed.

Lemma unresolved_subject_is_dropped_witness :
  let idMap : gmap string string := {[ "jdoe" := "jdoe@redhat.com" ]} in
  let rb1 := sampleBinding "team-a" "appstudio-jdoe-admin" "jdoe" "appstudio-user" in
  let rb := sampleBinding "team-b" "appstudio-ghost-admin" "ghost" "appstudio-user" in
  result_map migrated (mutateTenantRoleBindings mapOrder idMap ([rb1] ++ rb :: [rb1]))
  = result_map migrated (mutateTenantRoleBindings mapOrder idMap ([rb1] ++ [rb1])).
Proof.
  intros idMap rb1 rb.
  assert (Hid : idMap !! "ghost" = None) by (vm_compute; reflexivity).
  exact (proj2 (proj2 (unresolved_subject_is_dropped mapOrder idMap [rb1] [rb1] rb
                         (Subject.mk "User" "rbac.authorization.k8s.io" "ghost" "")
                         eq_refl Hid))).
Defined.

(** ** [mutateTenantRoleBindings]: the orphan report *)

Lemma migCount_snoc (ns : string) (l : list RoleBinding.t) (m : RoleBinding.t) :
  migCount ns (l ++ [m])
  = migCount ns l + (if decide (RoleBinding.Namespace m = ns) then 1 else 0).
Proof.
  unfold migCount. rewrite filter_app, List.length_app. f_equal.
  rewrite filter_cons, filter_nil. now case_decide.
Qed.

Lemma migCount_zero (ns : string) (l : list RoleBinding.t) :
  migCount ns l = 0 <-> forall m, m ∈ l -> RoleBinding.Namespace m <> ns.
Proof.
  unfold migCount. split.
  - intros H m Hin Hns. apply length_zero_iff_nil in H.
    assert (Hm : m ∈ filter (fun m => RoleBinding.Namespace m = ns) l)
      by now apply list_elem_of_filter.
    rewrite H in Hm. now apply not_elem_of_nil in Hm.
  - intros H. induction l as [|x l IH]; [reflexivity|].
    rewrite filter_cons_False by (apply H; left).
    apply IH. intros m Hm. apply H. now right.
Qed.

Lemma tracked_snoc (seen : list RoleBinding.t) (rb : RoleBinding.t) (ns : string) :
  (exists b, b ∈ (seen ++ [rb])%list /\ RoleBinding.Namespace b = ns)
  <-> RoleBinding.Namespace rb = ns \/ exists b, b ∈ seen /\ RoleBinding.Namespace b = ns.
Proof.
  split.
  - intros (b & [Hb|Hb%list_elem_of_singleton]%elem_of_app & Hns); subst; eauto.
  - intros [H|(b & Hb & Hns)].
    + exists rb. split; [|exact H]. apply elem_of_app. right. now left.
    + exists b. split; [|exact Hns]. apply elem_of_app. now left.
Qed.

Lemma counted_track (seen : list RoleBinding.t) (rb : RoleBinding.t)
    (pn : gmap string nat) (ns : string) :
  (forall k, is_Some (pn !! k) <-> exists b, b ∈ seen /\ RoleBinding.Namespace b = k) ->
  is_Some (track (RoleBinding.Namespace rb) pn !! ns)
  <-> exists b, b ∈ (seen ++ [rb])%list /\ RoleBinding.Namespace b = ns.
Proof.
  intros H. rewrite tracked_snoc, <- H.
  destruct (decide (ns = RoleBinding.Namespace rb)) as [->|Hne].
  - split; [now left | intros _; apply track_is_Some].
  - rewrite track_other by exact Hne. split; [now right | intros [E|E]; congruence].
Qed.

Lemma counted_body (idMap : gmap string string) (seen : list RoleBinding.t)
    (st st' : loopState) (rb : RoleBinding.t) :
  counted seen st -> mutate_body idMap st rb = Ok st' -> counted (seen ++ [rb]) st'.
Proof.
  intros [Ht Hc] H.
  destruct (mutate_body_cases idMap st rb)
    as [[_ E]|[[_ E]|[(s0 & _ & _ & E)|(s0 & id & _ & _ & E)]]];
    rewrite E in H; try discriminate; injection H as <-;
    unfold counted; cbn [mrbList processedNamespaces].
  - split; [intros ns; now apply counted_track|].
    intros ns. now rewrite countOf_track.
  - split.
    + intros ns. rewrite <- (counted_track seen rb _ ns Ht), lookup_insert.
      case_decide; [subst; split; [intros _; apply track_is_Some | eauto] | reflexivity].
    + intros ns. rewrite countOf_insert, countOf_track, migCount_snoc, !Hc.
      change (RoleBinding.Namespace (migratedBinding rb (Subject.Name s0) id))
        with (RoleBinding.Namespace rb).
      case_decide; [subst; lia | lia].
Qed.

Lemma counted_loop (idMap : gmap string string) (l seen : list RoleBinding.t)
    (st st' : loopState) :
  counted seen st -> foldM (mutate_body idMap) l st = Ok st' -> counted (seen ++ l) st'.
Proof.
  revert seen st; induction l as [|rb l IH]; intros seen st Hc H; simpl in H.
  - injection H as <-. now rewrite app_nil_r.
  - destruct (mutate_body idMap st rb) as [st1| |] eqn:Hb; try discriminate.
    replace (seen ++ rb :: l)%list with ((seen ++ [rb]) ++ l)%list
      by now rewrite <- List.app_assoc.
    eapply IH; [|exact H]. eapply counted_body; eauto.
Qed.

Lemma counted_init : counted [] (mkLoop [] ∅ []).
Proof.
  split; intros ns; cbn [mrbList processedNamespaces].
  - rewrite lookup_empty. split; [intros [? ?]; discriminate|].
    intros (b & Hb & _). now apply not_elem_of_nil in Hb.
  - unfold countOf. now rewrite lookup_empty.
Qed.

(** The report of a valid order: the namespaces whose count is zero, each
    once. *)
Lemma orphanReport_spec (rangeOrder : gmap string nat -> list (string * nat))
    (pn : gmap string nat) :
  validOrder rangeOrder ->
  NoDup (orphanReport rangeOrder pn)
  /\ forall ns, ns ∈ orphanReport rangeOrder pn <-> pn !! ns = Some 0.
Proof.
  intros Hv. unfold orphanReport. split.
  - eapply sublist_NoDup; [|apply fmap_sublist, sublist_filter].
    rewrite (Hv pn). apply NoDup_fst_map_to_list.
  - intros ns. rewrite list_elem_of_fmap. split.
    + intros ([k c] & -> & [Hc Hin]%list_elem_of_filter). simpl in *. subst c.
      rewrite (Hv pn) in Hin. now apply elem_of_map_to_list in Hin.
    + intros H. exists (ns, 0). split; [reflexivity|].
      apply list_elem_of_filter. split; [reflexivity|].
      rewrite (Hv pn). now apply elem_of_map_to_list.
Qed.

(** C5. After a run that reaches the report, with [range] visiting each
    entry of the map once: a namespace of some input binding that has no
    migrated binding is printed exactly once; a namespace with a migrated
    binding is not printed; and nothing else is printed. *)
Theorem orphan_report_exact
    (rangeOrder : gmap string nat -> list (string * nat))
    (idMap : gmap string string) (rbList : list RoleBinding.t) (out : mutated) :
  validOrder rangeOrder ->
  mutateTenantRoleBindings rangeOrder idMap rbList = Ok out ->
  forall ns,
    ((exists rb, rb ∈ rbList /\ RoleBinding.Namespace rb = ns) ->
     (forall m, m ∈ migrated out -> RoleBinding.Namespace m <> ns) ->
     count_occ String.string_dec (orphans out) ns = 1)
    /\ ((exists m, m ∈ migrated out /\ RoleBinding.Namespace m = ns) ->
        ns ∉ orphans out)
    /\ (ns ∈ orphans out ->
        (exists rb, rb ∈ rbList /\ RoleBinding.Namespace rb = ns)
        /\ forall m, m ∈ migrated out -> RoleBinding.Namespace m <> ns).
Proof.
  intros Hv H ns. rewrite mutateTenantRoleBindings_loop in H.
  destruct (mutate_loop idMap rbList) as [st| |] eqn:Hl; try discriminate.
  injection H as <-. cbn [migrated orphans].
  destruct (counted_loop idMap rbList [] _ st counted_init Hl) as [Ht Hc].
  rewrite app_nil_l in Ht.
  destruct (orphanReport_spec rangeOrder (processedNamespaces st) Hv) as [Hnd Hin].
  assert (Hz : processedNamespaces st !! ns = Some 0
               <-> (exists rb, rb ∈ rbList /\ RoleBinding.Namespace rb = ns)
                   /\ forall m, m ∈ mrbList st -> RoleBinding.Namespace m <> ns).
  { rewrite <- Ht, <- migCount_zero, <- Hc. unfold countOf. split.
    - intros ->. split; [eauto | reflexivity].
    - intros [[c E] Hc0]. rewrite E in Hc0. simpl in Hc0. now subst c. }
  split; [|split].
  - intros Hrb Hno.
    apply NoDup_ListNoDup in Hnd.
    apply (proj1 (NoDup_count_occ' String.string_dec _) Hnd).
    apply list_elem_of_In, Hin, Hz. now split.
  - intros (m & Hm & Hns) Ho. apply Hin, Hz in Ho as [_ Hno]. now apply (Hno m).
  - intros Ho. now apply Hin, Hz in Ho.
Qed.

Lemma orphan_report_exact_witness :
  let idMap : gmap string string := {[ "jdoe" := "jdoe@redhat.com" ]} in
  let rbList := [sampleBinding "team-a" "appstudio-jdoe-admin" "jdoe" "appstudio-user";
                 sampleBinding "team-b" "appstudio-ghost-admin" "ghost" "appstudio-user";
                 sampleBinding "team-b" "appstudio-ghost-view" "ghost" "appstudio-view"] in
  exists out, mutateTenantRoleBindings mapOrder idMap rbList = Ok out
              /\ count_occ String.string_dec (orphans out) "team-b" = 1
              /\ "team-a" ∉ orphans out.
Proof.
  intros idMap rbList.
  assert (Hv : validOrder mapOrder) by (intros m; reflexivity).
  destruct (mutateTenantRoleBindings mapOrder idMap rbList) as [out| |] eqn:H;
    [|vm_compute in H; discriminate..].
  exists out. split; [reflexivity|].
  pose proof (orphan_report_exact mapOrder idMap rbList out Hv H) as Hspec.
  assert (Hm : migrated out
               = [migratedBinding (sampleBinding "team-a" "appstudio-jdoe-admin" "jdoe"
                                     "appstudio-user") "jdoe" "jdoe@redhat.com"])
    by (vm_compute in H; injection H as <-; reflexivity).
  split.
  - apply (proj1 (Hspec "team-b")).
    + eexists. split; [right; left | reflexivity].
    + rewrite Hm. intros m ->%list_elem_of_singleton. discriminate.
  - apply (proj1 (proj2 (Hspec "team-a"))).
    eexists. split; [rewrite Hm; left | reflexivity].
Defined.

(** * Further properties *)

(** ** [cleanEmail]: what is left of an address *)

Section CleanEmailMore.
Import GoStrings GoStringsFacts.

Lemma hasTag_cons (c : ascii) (s : string) :
  hasTag (String c s)
  = match matchAt (String c s) with Some _ => true | None => hasTag s end.
Proof. reflexivity. Qed.

Lemma countByte_cons (c a : ascii) (s : string) :
  countByte c (String a s) = (if Ascii.eqb a c then 1 else 0) + countByte c s.
Proof. reflexivity. Qed.

Lemma firstAt_cons (c : ascii) (s : string) :
  firstAt (String c s) = if Ascii.eqb c "@" then Some 0 else S <$> firstAt s.
Proof. reflexivity. Qed.

Lemma firstAt_None_hasTag (s : string) : firstAt s = None -> hasTag s = false.
Proof.
  induction s as [|c s IH]; intros H; [reflexivity|].
  rewrite firstAt_cons in H. destruct (Ascii.eqb c "@"); [discriminate|].
  destruct (firstAt s) eqn:Hs; [discriminate|].
  rewrite hasTag_cons, IH by reflexivity.
  destruct (Ascii.eqb_spec c "+") as [->|Hc].
  - now rewrite matchAt_plus, Hs.
  - now rewrite matchAt_not_plus.
Qed.

(** Up to and including the first ["@"]: its offset bounds the length,
    and it is one of the ["@"] of the string. *)
Lemma firstAt_Some (s : string) (k : nat) :
  firstAt s = Some k ->
  String.length (drop (S k) s) + S k = String.length s
  /\ countByte "@" s = S (countByte "@" (drop (S k) s)).
Proof.
  revert k; induction s as [|c s IH]; intros k H; [discriminate|].
  rewrite firstAt_cons in H. rewrite countByte_cons.
  destruct (Ascii.eqb c "@").
  - injection H as <-. simpl. split; [lia | reflexivity].
  - destruct (firstAt s) as [j|]; [|discriminate]. injection H as <-.
    destruct (IH j eq_refl) as [Hl Hc].
    change (drop (S (S j)) (String c s)) with (drop (S j) s).
    change (String.length (String c s)) with (S (String.length s)).
    split; [lia | exact Hc].
Qed.

Lemma matchAt_Some (c : ascii) (s : string) (n : nat) :
  matchAt (String c s) = Some n ->
  c = "+"%char /\ exists k, firstAt s = Some (S k) /\ n = S (S (S k)).
Proof.
  intros H. destruct (Ascii.eqb_spec c "+") as [->|Hc].
  - rewrite matchAt_plus in H. destruct (firstAt s) as [[|k]|]; try discriminate.
    injection H as <-. eauto.
  - now rewrite matchAt_not_plus in H.
Qed.

Lemma cleanEmail_measure_bounded (n : nat) (s : string) :
  String.length s <= n ->
  String.length (cleanEmail s) <= String.length s
  /\ countByte "@" (cleanEmail s) = countByte "@" s
  /\ (hasTag s = true -> String.length (cleanEmail s) < String.length s).
Proof.
  revert s; induction n as [|n IH]; intros [|c s] Hlen; simpl in Hlen;
    try lia; try (repeat split; (reflexivity || discriminate)).
  rewrite hasTag_cons.
  change (String.length (String c s)) with (S (String.length s)).
  destruct (matchAt (String c s)) as [m|] eqn:Hm.
  - rewrite (cleanEmail_match _ _ _ Hm).
    destruct (matchAt_Some _ _ _ Hm) as (-> & k & Hk & ->).
    destruct (firstAt_Some s (S k) Hk) as [Hl Hc].
    change (Nat.pred (S (S (S k)))) with (S (S k)).
    destruct (IH (drop (S (S k)) s)) as (IH1 & IH2 & _); [lia|].
    rewrite !countByte_cons, Hc, IH2.
    change (String.length (String "@" (cleanEmail (drop (S (S k)) s))))
      with (S (String.length (cleanEmail (drop (S (S k)) s)))).
    repeat split; try reflexivity; lia.
  - rewrite (cleanEmail_copy _ _ Hm).
    destruct (IH s) as (IH1 & IH2 & IH3); [lia|].
    rewrite !countByte_cons, IH2.
    change (String.length (String c (cleanEmail s)))
      with (S (String.length (cleanEmail s))).
    repeat split; try reflexivity; [lia|]. intros Ht. specialize (IH3 Ht). lia.
Qed.

Lemma hasTag_cleanEmail_bounded (n : nat) (s : string) :
  String.length s <= n -> hasTag (cleanEmail s) = false.
Proof.
  revert s; induction n as [|n IH]; intros [|c s] Hlen; simpl in Hlen;
    try reflexivity; try lia.
  destruct (matchAt (String c s)) as [m|] eqn:Hm.
  - rewrite (cleanEmail_match _ _ _ Hm), hasTag_cons.
    rewrite matchAt_not_plus by discriminate.
    apply IH. pose proof (length_drop_le (Nat.pred m) s). lia.
  - rewrite (cleanEmail_copy _ _ Hm).
    destruct (Ascii.eqb_spec c "+") as [->|Hc].
    + rewrite matchAt_plus in Hm.
      destruct (firstAt s) as [[|k]|] eqn:Hs; try discriminate.
      * destruct s as [|d s]; [discriminate|]. rewrite firstAt_cons in Hs.
        destruct (Ascii.eqb_spec d "@") as [->|]; [|now destruct (firstAt s)].
        rewrite (cleanEmail_copy "@" s) by reflexivity.
        rewrite hasTag_cons, matchAt_plus, firstAt_cons, Ascii.eqb_refl.
        cbv beta iota.
        rewrite hasTag_cons, matchAt_not_plus by discriminate.
        apply IH. simpl in Hlen. lia.
      * rewrite (cleanEmail_no_at s Hs), hasTag_cons, matchAt_plus, Hs.
        now apply firstAt_None_hasTag.
    + rewrite hasTag_cons, matchAt_not_plus by exact Hc. apply IH. lia.
Qed.

Lemma cleanEmail_no_tag (s : string) : hasTag s = false -> cleanEmail s = s.
Proof.
  induction s as [|c s IH]; intros H; [reflexivity|].
  rewrite hasTag_cons in H. destruct (matchAt (String c s)) eqn:Hm; [discriminate|].
  now rewrite (cleanEmail_copy _ _ Hm), IH.
Qed.

End CleanEmailMore.

(** X1. [cleanEmail] never lengthens an address, shortens it whenever a
    tag is present, and keeps the number of ["@"]: each match ends with
    its one ["@"], which the replacement writes back. *)
Theorem cleanEmail_length_and_at_count (email : string) :
  String.length (cleanEmail email) <= String.length email
  /\ countByte "@" (cleanEmail email) = countByte "@" email
  /\ (hasTag email = true -> String.length (cleanEmail email) < String.length email).
Proof. now apply (cleanEmail_measure_bounded (String.length email)). Qed.

(** X2. The result of [cleanEmail] has no match of the pattern left, and
    [cleanEmail] returns its argument exactly when the argument has no
    match. *)
Theorem cleanEmail_removes_every_tag (email : string) :
  hasTag (cleanEmail email) = false
  /\ (cleanEmail email = email <-> hasTag email = false).
Proof.
  assert (H : hasTag (cleanEmail email) = false)
    by now apply (hasTag_cleanEmail_bounded (String.length email)).
  split; [exact H|]. split; [intros E; now rewrite E in H | apply cleanEmail_no_tag].
Qed.

(** ** [getUser] *)

(** Up to the ["@"] a local part without ["+"] is copied. *)
Lemma cleanEmail_local (loc rest : string) :
  GoStrings.Contains loc "+" = false ->
  cleanEmail (loc ++ "@" ++ rest) = loc ++ "@" ++ cleanEmail rest.
Proof.
  intros Hloc. induction loc as [|c loc IH].
  - change ("" ++ "@" ++ rest) with (String "@" rest).
    now rewrite cleanEmail_copy by reflexivity.
  - rewrite GoStringsFacts.Contains_cons in Hloc.
    apply orb_false_elim in Hloc as [Hc Hloc].
    simpl in Hc. rewrite GoStringsFacts.HasPrefix_empty in Hc.
    change (String c loc ++ "@" ++ rest) with (String c (loc ++ "@" ++ rest)).
    rewrite cleanEmail_copy, IH by
      (try apply matchAt_not_plus; try assumption; intros ->; discriminate).
    reflexivity.
Qed.

(** X3. [getUser] sees an address only through [cleanEmail]: the cleaned
    address resolves as the address itself does, and so [local+tag@domain]
    resolves as [local@domain] does, whatever the directory answers. *)
Theorem getUser_ignores_tag (searchLDAP : string -> string -> result string)
    (email : string) :
  getUser searchLDAP (cleanEmail email) = getUser searchLDAP email
  /\ forall loc tag domain : string,
       email = loc ++ "+" ++ tag ++ "@" ++ domain ->
       GoStrings.Contains loc "+" = false ->
       tag <> "" ->
       GoStrings.Contains tag "@" = false ->
       getUser searchLDAP email = getUser searchLDAP (loc ++ "@" ++ domain).
Proof.
  split; [unfold getUser; now rewrite cleanEmail_idempotent|].
  intros loc tag domain -> Hloc Htag Hat. unfold getUser.
  now rewrite (cleanEmail_tag loc tag domain Hloc Htag Hat), (cleanEmail_local loc domain Hloc).
Qed.

Lemma getUser_ignores_tag_witness :
  let searchLDAP := fun email field : string =>
                      if String.eqb field "mail" then Ok "" else Ok email in
  getUser searchLDAP "jdoe+dev@redhat.com" = getUser searchLDAP "jdoe@redhat.com".
Proof.
  intros searchLDAP.
  apply (proj2 (getUser_ignores_tag searchLDAP "jdoe+dev@redhat.com") "jdoe" "dev" "redhat.com");
    [reflexivity | reflexivity | discriminate | reflexivity].
Defined.

(** ** [buildIDMap]: where the entries come from *)

(** An invariant that speaks of the elements gone through. *)
Lemma foldM_invariant_seen {A S : Type} (body : S -> A -> result S)
    (I : list A -> S -> Prop) :
  (forall seen s x s', I seen s -> body s x = Ok s' -> I (seen ++ [x])%list s') ->
  forall l seen s s', I seen s -> foldM body l s = Ok s' -> I (seen ++ l)%list s'.
Proof.
  intros Hstep l; induction l as [|x l IH]; intros seen s s' Hs H; simpl in H.
  - injection H as <-. now rewrite app_nil_r.
  - destruct (body s x) as [s1| |] eqn:Hb; simpl in H; try discriminate.
    replace (seen ++ x :: l)%list with ((seen ++ [x]) ++ l)%list
      by now rewrite <- List.app_assoc.
    eapply IH; [|exact H]. eapply Hstep; eauto.
Qed.

(** An invariant kept by the iterations over elements that satisfy [P]. *)
Lemma foldM_invariant_Forall {A S : Type} (body : S -> A -> result S)
    (P : A -> Prop) (I : S -> Prop) :
  (forall s x s', P x -> I s -> body s x = Ok s' -> I s') ->
  forall l s s', Forall P l -> I s -> foldM body l s = Ok s' -> I s'.
Proof.
  intros Hstep l; induction l as [|x l IH]; intros s s' Hl Hs H; simpl in H.
  - now injection H as <-.
  - destruct (body s x) as [s1| |] eqn:Hb; simpl in H; try discriminate.
    inversion Hl; subst. eapply IH; [eassumption| |exact H]. eapply Hstep; eauto.
Qed.

(** What one iteration of [buildIDMap] does to the map. *)
Lemma buildIDMap_body_Ok (transform : Transform) (idMap idMap' : gmap string string)
    (account : Unstructured) :
  buildIDMap_body transform idMap account = Ok idMap' ->
  idMap' = idMap
  \/ exists email id, claimsEmail account = Some email /\ transform email = Ok id
                      /\ id <> "" /\ idMap' = <[GetName account := id]> idMap.
Proof.
  rewrite buildIDMap_body_claims. intros H.
  destruct (claimsEmail account) as [email|]; [|injection H as <-; now left].
  destruct (transform email) as [id| |] eqn:Ht; simpl in H; try discriminate.
  destruct (String.eqb id "") eqn:Hne; injection H as <-; [now left|].
  apply String.eqb_neq in Hne. right. exists email, id. auto.
Qed.

Lemma buildIDMap_fromAccounts (transform : Transform) (userAccounts : list Unstructured)
    (idMap : gmap string string) :
  buildIDMap userAccounts transform = Ok idMap -> fromAccounts transform userAccounts idMap.
Proof.
  intros H.
  apply (foldM_invariant_seen (buildIDMap_body transform) (fromAccounts transform))
    with (l := userAccounts) (seen := []) (s := ∅); [| |exact H].
  - intros seen m account m' [Hsize Hm] Hb.
    apply buildIDMap_body_Ok in Hb as [->|(email & id & Hc & Ht & Hne & ->)].
    + split; [rewrite List.length_app; lia|].
      intros name id Hl. destruct (Hm name id Hl) as (a & e & Ha & Hrest).
      exists a, e. split; [apply elem_of_app; now left | exact Hrest].
    + split.
      * rewrite map_size_insert, List.length_app. simpl.
        destruct (m !! GetName account); simpl; lia.
      * intros name id'. rewrite lookup_insert. case_decide.
        -- intros [= <-]. exists account, email. subst name.
           split; [apply elem_of_app; right; left | auto].
        -- intros Hl. destruct (Hm name id' Hl) as (a & e & Ha & Hrest).
           exists a, e. split; [apply elem_of_app; now left | exact Hrest].
  - split; [rewrite map_size_empty; simpl; lia|].
    intros name id. now rewrite lookup_empty.
Qed.

(** X4. Every entry of the map that [buildIDMap] returns has the name of
    an account of the batch and holds the non-empty result of the transform
    on that account's address; the map has no more entries than the batch
    has accounts. *)
Theorem buildIDMap_entries_come_from_accounts (transform : Transform)
    (userAccounts : list Unstructured) (idMap : gmap string string) :
  buildIDMap userAccounts transform = Ok idMap ->
  size idMap <= length userAccounts
  /\ forall name id, idMap !! name = Some id ->
       exists account email,
         account ∈ userAccounts /\ GetName account = name
         /\ claimsEmail account = Some email /\ transform email = Ok id /\ id <> "".
Proof. exact (buildIDMap_fromAccounts transform userAccounts idMap). Qed.

Lemma buildIDMap_entries_come_from_accounts_witness :
  exists idMap,
    buildIDMap [sampleAccount "jdoe" "jdoe+dev@redhat.com"; noClaimsAccount "ghost"] cleanEmailT
    = Ok idMap
    /\ size idMap <= 2.
Proof.
  eexists. split; [vm_compute; reflexivity|].
  apply (buildIDMap_entries_come_from_accounts cleanEmailT
           [sampleAccount "jdoe" "jdoe+dev@redhat.com"; noClaimsAccount "ghost"]).
  vm_compute. reflexivity.
Defined.

(** X5. The last account of a name that resolves decides the entry: when
    an account resolves to a non-empty identity and every later account of
    its name is malformed or resolves to [""], the map holds that identity
    under the name.  A later account that fails to resolve does not remove
    the entry. *)
Theorem buildIDMap_last_resolved_wins (transform : Transform)
    (before after : list Unstructured) (account : Unstructured)
    (email id : string) (idMap : gmap string string) :
  claimsEmail account = Some email -> transform email = Ok id -> id <> "" ->
  Forall (leavesName transform (GetName account)) after ->
  buildIDMap (before ++ account :: after) transform = Ok idMap ->
  idMap !! GetName account = Some id.
Proof.
  intros Hc Ht Hne Hafter H. unfold buildIDMap in H. rewrite foldM_app in H.
  destruct (foldM (buildIDMap_body transform) before ∅) as [m0| |]; try discriminate.
  simpl in H. rewrite buildIDMap_body_claims, Hc, Ht in H. simpl in H.
  apply String.eqb_neq in Hne. rewrite Hne in H.
  apply (foldM_invariant_Forall (buildIDMap_body transform)
           (leavesName transform (GetName account))
           (fun m : gmap string string => m !! GetName account = Some id))
    with (l := after) (s := <[GetName account := id]> m0); try assumption.
  - intros m a m' Ha Hm Hb.
    apply buildIDMap_body_Ok in Hb as [->|(e & id' & Hce & Hte & Hne' & ->)]; [exact Hm|].
    rewrite lookup_insert. case_decide as Hn; [|exact Hm].
    exfalso. destruct (Ha Hn) as [Hnone|(e' & He' & Hempty)]; [congruence|].
    rewrite He' in Hce. injection Hce as <-. rewrite Hempty in Hte. congruence.
  - apply lookup_insert_eq.
Qed.

Lemma buildIDMap_last_resolved_wins_witness :
  exists idMap,
    buildIDMap ([sampleAccount "jdoe" "old@redhat.com"]
                  ++ sampleAccount "jdoe" "jdoe+dev@redhat.com" :: [noClaimsAccount "jdoe"])
      cleanEmailT = Ok idMap
    /\ idMap !! "jdoe" = Some "jdoe@redhat.com".
Proof.
  eexists. split; [vm_compute; reflexivity|].
  apply (buildIDMap_last_resolved_wins cleanEmailT [sampleAccount "jdoe" "old@redhat.com"]
           [noClaimsAccount "jdoe"] (sampleAccount "jdoe" "jdoe+dev@redhat.com")
           "jdoe+dev@redhat.com" "jdoe@redhat.com").
  - vm_compute. reflexivity.
  - reflexivity.
  - discriminate.
  - constructor; [|constructor]. intros _. left. vm_compute. reflexivity.
  - vm_compute. reflexivity.
Defined.

(** X6. With [cleanEmail] as the transform [buildIDMap] always returns,
    and every identity it stores is a cleaned address: it has no tag left
    and [cleanEmail] does not change it. *)
Theorem buildIDMap_cleanEmail_values (userAccounts : list Unstructured) :
  exists idMap,
    buildIDMap userAccounts cleanEmailT = Ok idMap
    /\ forall name id, idMap !! name = Some id ->
         hasTag id = false /\ cleanEmail id = id.
Proof.
  destruct (foldM_total (buildIDMap_body cleanEmailT) userAccounts) with (s := (∅ : gmap string string))
    as [idMap H].
  { intros m account _. rewrite buildIDMap_body_claims.
    destruct (claimsEmail account) as [email|]; [|eauto].
    simpl. destruct (String.eqb (cleanEmail email) ""); eauto. }
  exists idMap. split; [exact H|]. intros name id Hl.
  destruct (buildIDMap_fromAccounts cleanEmailT userAccounts idMap H) as [_ Hfrom].
  destruct (Hfrom name id Hl) as (a & e & _ & _ & _ & Ht & _).
  injection Ht as <-. split.
  - now apply (hasTag_cleanEmail_bounded (String.length e)).
  - apply cleanEmail_idempotent.
Qed.

(** X7. A fatal end of the transform ends [buildIDMap]: when the accounts
    before are malformed or resolve, and the transform is fatal on the
    address of the next account, [buildIDMap] is fatal with that message,
    whatever follows. *)
Theorem buildIDMap_fatal_transform (transform : Transform)
    (before after : list Unstructured) (account : Unstructured) (email msg : string) :
  Forall (fun a => forall e, claimsEmail a = Some e -> exists id, transform e = Ok id) before ->
  claimsEmail account = Some email -> transform email = Fatal msg ->
  buildIDMap (before ++ account :: after) transform = Fatal msg.
Proof.
  intros Hb Hc Ht. unfold buildIDMap. rewrite foldM_app.
  destruct (foldM_total (buildIDMap_body transform) before) with (s := (∅ : gmap string string))
    as [m0 ->].
  { intros m a Ha. rewrite Forall_forall in Hb. specialize (Hb a Ha).
    rewrite buildIDMap_body_claims.
    destruct (claimsEmail a) as [e|]; [|eauto].
    destruct (Hb e eq_refl) as [id ->]. simpl. destruct (String.eqb id ""); eauto. }
  simpl. now rewrite buildIDMap_body_claims, Hc, Ht.
Qed.

Lemma buildIDMap_fatal_transform_witness :
  buildIDMap ([noClaimsAccount "ghost"] ++ sampleAccount "jdoe" "jdoe@redhat.com"
                :: [sampleAccount "ann" "ann@redhat.com"])
    (getUser (fun _ _ => Fatal "Error found searching"))
  = Fatal "Error found searching".
Proof.
  apply (buildIDMap_fatal_transform _ [noClaimsAccount "ghost"] _
           (sampleAccount "jdoe" "jdoe@redhat.com") "jdoe@redhat.com").
  - repeat constructor. intros e He. vm_compute in He. discriminate.
  - vm_compute. reflexivity.
  - reflexivity.
Defined.

(** ** [mutateTenantRoleBindings]: what is returned *)

Lemma migrateOne_one (idMap : gmap string string) (rb : RoleBinding.t) (s0 : Subject.t) :
  RoleBinding.Subjects rb = [s0] ->
  migrateOne idMap rb = migratedBinding rb (Subject.Name s0) <$> idMap !! Subject.Name s0.
Proof. intros H. unfold migrateOne. now rewrite H. Qed.

Lemma renamedInPlace_one (idMap : gmap string string) (rb : RoleBinding.t) (s0 : Subject.t) :
  RoleBinding.Subjects rb = [s0] ->
  renamedInPlace idMap rb
  = match idMap !! Subject.Name s0 with
    | Some id => setSubjects rb [Subject.setName s0 id]
    | None => rb
    end.
Proof. intros H. unfold renamedInPlace. now rewrite H. Qed.

(** The loop appends the records of the bindings in their order, and
    leaves each binding of the caller renamed in place. *)
Lemma mutate_loop_spec (idMap : gmap string string) (l : list RoleBinding.t)
    (st st' : loopState) :
  foldM (mutate_body idMap) l st = Ok st' ->
  mrbList st' = (mrbList st ++ omap (migrateOne idMap) l)%list
  /\ rbListSeen st' = (rbListSeen st ++ (renamedInPlace idMap <$> l))%list.
Proof.
  revert st; induction l as [|rb l IH]; intros st H; simpl in H.
  - injection H as <-. simpl. now rewrite !app_nil_r.
  - destruct (mutate_body_cases idMap st rb)
      as [[_ E]|[[_ E]|[(s0 & Hs & Hid & E)|(s0 & id & Hs & Hid & E)]]];
      rewrite E in H; try discriminate; simpl in H;
      destruct (IH _ H) as [Hm Hr]; rewrite Hm, Hr;
      cbn [mrbList rbListSeen omap list_omap fmap list_fmap];
      rewrite (migrateOne_one idMap rb s0 Hs), (renamedInPlace_one idMap rb s0 Hs), Hid;
      simpl; now rewrite <- !List.app_assoc.
Qed.

Lemma mutate_run_spec (rangeOrder : gmap string nat -> list (string * nat))
    (idMap : gmap string string) (rbList : list RoleBinding.t) (out : mutated) :
  mutateTenantRoleBindings rangeOrder idMap rbList = Ok out ->
  Forall oneSubject rbList
  /\ migrated out = omap (migrateOne idMap) rbList
  /\ rbListAfter out = renamedInPlace idMap <$> rbList.
Proof.
  intros H. rewrite mutateTenantRoleBindings_loop in H.
  destruct (mutate_loop idMap rbList) as [st| |] eqn:Hl; try discriminate.
  injection H as <-. cbn [migrated rbListAfter].
  split; [apply (mutate_loop_Ok_iff idMap rbList (mkLoop [] ∅ [])); eauto|].
  now apply mutate_loop_spec in Hl as [-> ->].
Qed.

Lemma mutate_run_total (rangeOrder : gmap string nat -> list (string * nat))
    (idMap : gmap string string) (rbList : list RoleBinding.t) :
  Forall oneSubject rbList ->
  exists out, mutateTenantRoleBindings rangeOrder idMap rbList = Ok out.
Proof.
  intros Hall. rewrite mutateTenantRoleBindings_loop.
  apply (mutate_loop_Ok_iff idMap rbList (mkLoop [] ∅ [])) in Hall as [st Hst].
  unfold mutate_loop. rewrite Hst. eauto.
Qed.

(** Where a record of the returned slice comes from. *)
Lemma migrated_origin (idMap : gmap string string) (l : list RoleBinding.t)
    (m : RoleBinding.t) :
  Forall oneSubject l -> m ∈ omap (migrateOne idMap) l ->
  exists rb s0 id,
    rb ∈ l /\ RoleBinding.Subjects rb = [s0] /\ idMap !! Subject.Name s0 = Some id
    /\ m = migratedBinding rb (Subject.Name s0) id.
Proof.
  intros Hall (rb & Hin & Hm)%list_elem_of_omap.
  rewrite Forall_forall in Hall. destruct (oneSubject_inv rb (Hall rb Hin)) as [s0 Hs].
  rewrite (migrateOne_one idMap rb s0 Hs) in Hm.
  destruct (idMap !! Subject.Name s0) as [id|] eqn:Hid; [|discriminate].
  injection Hm as <-. exists rb, s0, id. auto.
Qed.

Lemma length_omap_le {A B : Type} (f : A -> option B) (l : list A) :
  length (omap f l) <= length l.
Proof. induction l as [|x l IH]; csimpl; [lia|]. destruct (f x); csimpl; lia. Qed.

(** X8. The call returns exactly when every binding has one subject, and
    the slice it returns holds, in the order of the input, the record of
    each binding whose subject is a key of the mapping, and nothing else;
    it is never longer than the input. *)
Theorem mutate_returns_records_in_order
    (rangeOrder : gmap string nat -> list (string * nat))
    (idMap : gmap string string) (rbList : list RoleBinding.t) :
  ((exists out, mutateTenantRoleBindings rangeOrder idMap rbList = Ok out)
   <-> Forall oneSubject rbList)
  /\ forall out, mutateTenantRoleBindings rangeOrder idMap rbList = Ok out ->
       migrated out = omap (migrateOne idMap) rbList
       /\ length (migrated out) <= length rbList.
Proof.
  split.
  - split; [intros [out H]; now apply mutate_run_spec in H | apply mutate_run_total].
  - intros out H. apply mutate_run_spec in H as (_ & -> & _).
    split; [reflexivity | apply length_omap_le].
Qed.

Lemma mutate_returns_records_in_order_witness :
  let idMap : gmap string string := {[ "jdoe" := "jdoe@redhat.com" ]} in
  let rb1 := sampleBinding "team-a" "appstudio-jdoe-admin" "jdoe" "appstudio-user" in
  let rb2 := sampleBinding "team-b" "appstudio-ghost-admin" "ghost" "appstudio-user" in
  exists out, mutateTenantRoleBindings mapOrder idMap [rb2; rb1; rb2] = Ok out
              /\ migrated out = [migratedBinding rb1 "jdoe" "jdoe@redhat.com"].
Proof.
  intros idMap rb1 rb2.
  destruct (proj2 (proj1 (mutate_returns_records_in_order mapOrder idMap [rb2; rb1; rb2])))
    as [out H]; [repeat constructor|].
  exists out. split; [exact H|].
  rewrite (proj1 (proj2 (mutate_returns_records_in_order mapOrder idMap [rb2; rb1; rb2]) out H)).
  vm_compute. reflexivity.
Defined.

(** X9. Every returned record is a [RoleBinding] of API version
    [rbac.authorization.k8s.io/v1] in the namespace of the binding it comes
    from, with the one label [konflux-ci.dev/type: user] and without
    annotations, resource version, UID, creation timestamp or managed
    fields.  Its one subject is the old subject renamed to the identity,
    and the API group of its role reference is the old one. *)
Theorem migrated_records_are_cleaned
    (rangeOrder : gmap string nat -> list (string * nat))
    (idMap : gmap string string) (rbList : list RoleBinding.t) (out : mutated)
    (m : RoleBinding.t) :
  mutateTenantRoleBindings rangeOrder idMap rbList = Ok out -> m ∈ migrated out ->
  exists rb s0 id,
    rb ∈ rbList /\ RoleBinding.Subjects rb = [s0] /\ idMap !! Subject.Name s0 = Some id
    /\ RoleBinding.Kind m = "RoleBinding"
    /\ RoleBinding.APIVersion m = "rbac.authorization.k8s.io/v1"
    /\ RoleBinding.Namespace m = RoleBinding.Namespace rb
    /\ ObjectMeta.Labels (RoleBinding.Meta m) = {[ "konflux-ci.dev/type" := "user" ]}
    /\ ObjectMeta.Annotations (RoleBinding.Meta m) = ∅
    /\ ObjectMeta.ResourceVersion (RoleBinding.Meta m) = ""
    /\ ObjectMeta.UID (RoleBinding.Meta m) = ""
    /\ ObjectMeta.CreationTimestamp (RoleBinding.Meta m) = None
    /\ ObjectMeta.ManagedFields (RoleBinding.Meta m) = []
    /\ RoleBinding.Subjects m
       = [Subject.mk (Subject.Kind s0) (Subject.APIGroup s0) id (Subject.Namespace s0)]
    /\ RoleRef.APIGroup (RoleBinding.Ref m) = RoleRef.APIGroup (RoleBinding.Ref rb).
Proof.
  intros H Hm. apply mutate_run_spec in H as (Hall & E & _). rewrite E in Hm.
  destruct (migrated_origin idMap rbList m Hall Hm) as (rb & s0 & id & Hin & Hs & Hid & ->).
  exists rb, s0, id. rewrite (migratedBinding_Subjects rb s0 _ id Hs).
  repeat split; assumption.
Qed.

Lemma migrated_records_are_cleaned_witness :
  let idMap : gmap string string := {[ "jdoe" := "jdoe@redhat.com" ]} in
  let rb := sampleBinding "team-a" "appstudio-jdoe-admin" "jdoe" "appstudio-user" in
  exists out m,
    mutateTenantRoleBindings mapOrder idMap [rb] = Ok out
    /\ m ∈ migrated out
    /\ ObjectMeta.UID (RoleBinding.Meta m) = "".
Proof.
  intros idMap rb.
  destruct (mutateTenantRoleBindings mapOrder idMap [rb]) as [out| |] eqn:H;
    [|vm_compute in H; discriminate..].
  assert (Hm : migratedBinding rb "jdoe" "jdoe@redhat.com" ∈ migrated out)
    by (vm_compute in H; injection H as <-; left).
  exists out, (migratedBinding rb "jdoe" "jdoe@redhat.com").
  split; [reflexivity|]. split; [exact Hm|].
  destruct (migrated_records_are_cleaned mapOrder idMap [rb] out _ H Hm)
    as (_ & _ & _ & _ & _ & _ & _ & _ & _ & _ & _ & _ & Hu & _).
  exact Hu.
Defined.

(** X10. With a mapping built by [buildIDMap], every returned record has
    one subject, and its name is not empty: it is the result of the
    transform on the address of an account of the batch that has the old
    subject's name. *)
Theorem migrated_subjects_are_resolved (transform : Transform)
    (userAccounts : list Unstructured)
    (rangeOrder : gmap string nat -> list (string * nat))
    (idMap : gmap string string) (rbList : list RoleBinding.t) (out : mutated)
    (m : RoleBinding.t) :
  buildIDMap userAccounts transform = Ok idMap ->
  mutateTenantRoleBindings rangeOrder idMap rbList = Ok out -> m ∈ migrated out ->
  exists rb s0 s account email,
    rb ∈ rbList /\ RoleBinding.Subjects rb = [s0] /\ RoleBinding.Subjects m = [s]
    /\ Subject.Name s <> ""
    /\ account ∈ userAccounts /\ GetName account = Subject.Name s0
    /\ claimsEmail account = Some email /\ transform email = Ok (Subject.Name s).
Proof.
  intros Hb H Hm. apply mutate_run_spec in H as (Hall & E & _). rewrite E in Hm.
  destruct (migrated_origin idMap rbList m Hall Hm) as (rb & s0 & id & Hin & Hs & Hid & ->).
  destruct (buildIDMap_fromAccounts transform userAccounts idMap Hb) as [_ Hfrom].
  destruct (Hfrom _ _ Hid) as (account & email & Ha & Hn & Hc & Ht & Hne).
  exists rb, s0, (Subject.setName s0 id), account, email.
  rewrite (migratedBinding_Subjects rb s0 _ id Hs). repeat split; assumption.
Qed.

Lemma migrated_subjects_are_resolved_witness :
  let rb := sampleBinding "team-a" "appstudio-jdoe-admin" "jdoe" "appstudio-user" in
  exists idMap out,
    buildIDMap [sampleAccount "jdoe" "jdoe+dev@redhat.com"] cleanEmailT = Ok idMap
    /\ mutateTenantRoleBindings mapOrder idMap [rb] = Ok out
    /\ forall m, m ∈ migrated out -> exists s, RoleBinding.Subjects m = [s] /\ Subject.Name s <> "".
Proof.
  intros rb.
  destruct (buildIDMap [sampleAccount "jdoe" "jdoe+dev@redhat.com"] cleanEmailT)
    as [idMap| |] eqn:Hb; [|vm_compute in Hb; discriminate..].
  destruct (mutateTenantRoleBindings mapOrder idMap [rb]) as [out| |] eqn:H.
  - exists idMap, out. split; [reflexivity|]. split; [exact H|]. intros m Hm.
    destruct (migrated_subjects_are_resolved cleanEmailT _ mapOrder idMap [rb] out m Hb H Hm)
      as (_ & _ & s & _ & _ & _ & _ & Hs & Hne & _).
    exists s. split; assumption.
  - vm_compute in Hb. injection Hb as <-. vm_compute in H. discriminate.
  - vm_compute in Hb. injection Hb as <-. vm_compute in H. discriminate.
Defined.

(** ** [mutateTenantRoleBindings]: nobody or everybody resolves *)

Lemma orphans_of_run (rangeOrder : gmap string nat -> list (string * nat))
    (idMap : gmap string string) (rbList : list RoleBinding.t) (out : mutated) :
  validOrder rangeOrder ->
  mutateTenantRoleBindings rangeOrder idMap rbList = Ok out ->
  NoDup (orphans out)
  /\ orphanCount out = length (orphans out)
  /\ forall ns, ns ∈ orphans out
                <-> (exists rb, rb ∈ rbList /\ RoleBinding.Namespace rb = ns)
                    /\ forall m, m ∈ migrated out -> RoleBinding.Namespace m <> ns.
Proof.
  intros Hv H. rewrite mutateTenantRoleBindings_loop in H.
  destruct (mutate_loop idMap rbList) as [st| |] eqn:Hl; try discriminate.
  injection H as <-. cbn [migrated orphans orphanCount].
  destruct (counted_loop idMap rbList [] _ st counted_init Hl) as [Ht Hc].
  rewrite app_nil_l in Ht.
  destruct (orphanReport_spec rangeOrder (processedNamespaces st) Hv) as [Hnd Hin].
  split; [exact Hnd|]. split; [reflexivity|]. intros ns.
  rewrite Hin, <- Ht, <- migCount_zero, <- Hc. unfold countOf. split.
  - intros ->. split; [eauto | reflexivity].
  - intros [[c E] Hc0]. rewrite E in Hc0. simpl in Hc0. now subst c.
Qed.

(** X11. When no subject of the input is a key of the mapping (so also
    for an empty mapping) and every binding has one subject, the call
    returns an empty slice and prints every namespace of the input as an
    orphan, each once. *)
Theorem nobody_resolves_all_orphans
    (rangeOrder : gmap string nat -> list (string * nat))
    (idMap : gmap string string) (rbList : list RoleBinding.t) :
  validOrder rangeOrder ->
  Forall (fun rb => exists s0, RoleBinding.Subjects rb = [s0]
                               /\ idMap !! Subject.Name s0 = None) rbList ->
  exists out,
    mutateTenantRoleBindings rangeOrder idMap rbList = Ok out
    /\ migrated out = []
    /\ NoDup (orphans out)
    /\ forall ns, ns ∈ orphans out <-> exists rb, rb ∈ rbList /\ RoleBinding.Namespace rb = ns.
Proof.
  intros Hv Hall.
  assert (Hone : Forall oneSubject rbList).
  { eapply Forall_impl; [exact Hall|]. intros rb (s0 & Hs & _). unfold oneSubject. now rewrite Hs. }
  destruct (mutate_run_total rangeOrder idMap rbList Hone) as [out H].
  exists out. split; [exact H|].
  assert (Hm : migrated out = []).
  { destruct (mutate_run_spec _ _ _ _ H) as (_ & -> & _).
    clear H Hone. induction Hall as [|rb l (s0 & Hs & Hid) _ IH]; [reflexivity|].
    csimpl. now rewrite (migrateOne_one idMap rb s0 Hs), Hid. }
  split; [exact Hm|].
  destruct (orphans_of_run rangeOrder idMap rbList out Hv H) as (Hnd & _ & Ho).
  split; [exact Hnd|]. intros ns. rewrite Ho, Hm. split; [now intros [? _]|].
  intros Hrb. split; [exact Hrb|]. intros m Hin. now apply elem_of_nil in Hin.
Qed.

Lemma nobody_resolves_all_orphans_witness :
  let rbList := [sampleBinding "team-a" "appstudio-ann-admin" "ann" "appstudio-user";
                 sampleBinding "team-a" "appstudio-bob-admin" "bob" "appstudio-user"] in
  exists out, mutateTenantRoleBindings mapOrder ∅ rbList = Ok out
              /\ migrated out = [] /\ "team-a" ∈ orphans out.
Proof.
  intros rbList.
  destruct (nobody_resolves_all_orphans mapOrder ∅ rbList) as (out & H & Hm & _ & Ho).
  - intros m. reflexivity.
  - repeat constructor; eexists; (split; [reflexivity | apply lookup_empty]).
  - exists out. split; [exact H|]. split; [exact Hm|].
    apply Ho. eexists. split; [left | reflexivity].
Defined.

(** X12. When the one subject of every binding is a key of the mapping,
    the call returns one record for each binding and prints no orphan. *)
Theorem everybody_resolves_no_orphan
    (rangeOrder : gmap string nat -> list (string * nat))
    (idMap : gmap string string) (rbList : list RoleBinding.t) :
  validOrder rangeOrder ->
  Forall (fun rb => exists s0, RoleBinding.Subjects rb = [s0]
                               /\ is_Some (idMap !! Subject.Name s0)) rbList ->
  exists out,
    mutateTenantRoleBindings rangeOrder idMap rbList = Ok out
    /\ length (migrated out) = length rbList
    /\ orphans out = [] /\ orphanCount out = 0.
Proof.
  intros Hv Hall.
  assert (Hone : Forall oneSubject rbList).
  { eapply Forall_impl; [exact Hall|]. intros rb (s0 & Hs & _). unfold oneSubject. now rewrite Hs. }
  destruct (mutate_run_total rangeOrder idMap rbList Hone) as [out H].
  exists out. split; [exact H|].
  destruct (mutate_run_spec _ _ _ _ H) as (_ & Hm & _).
  destruct (orphans_of_run rangeOrder idMap rbList out Hv H) as (_ & Hcount & Ho).
  assert (Hnone : orphans out = []).
  { apply elem_of_nil_inv. intros ns [(rb & Hin & Hns) Hno]%Ho.
    rewrite Forall_forall in Hall. destruct (Hall rb Hin) as (s0 & Hs & [id Hid]).
    apply (Hno (migratedBinding rb (Subject.Name s0) id)); [|exact Hns].
    rewrite Hm. apply list_elem_of_omap. exists rb. split; [exact Hin|].
    now rewrite (migrateOne_one idMap rb s0 Hs), Hid. }
  split; [|split; [exact Hnone | now rewrite Hcount, Hnone]].
  rewrite Hm. clear H Hm Ho Hone Hcount Hnone.
  induction Hall as [|rb l (s0 & Hs & [id Hid]) _ IH]; [reflexivity|].
  csimpl. rewrite (migrateOne_one idMap rb s0 Hs), Hid. csimpl. now rewrite IH.
Qed.

Lemma everybody_resolves_no_orphan_witness :
  let idMap : gmap string string := {[ "jdoe" := "jdoe@redhat.com" ]} in
  let rbList := [sampleBinding "team-a" "appstudio-jdoe-admin" "jdoe" "appstudio-user";
                 sampleBinding "team-b" "appstudio-jdoe-view" "jdoe" "appstudio-view"] in
  exists out, mutateTenantRoleBindings mapOrder idMap rbList = Ok out
              /\ length (migrated out) = 2 /\ orphans out = [].
Proof.
  intros idMap rbList.
  destruct (everybody_resolves_no_orphan mapOrder idMap rbList) as (out & H & Hl & Ho & _).
  - intros m. reflexivity.
  - repeat constructor; eexists; (split; [reflexivity | vm_compute; eauto]).
  - exists out. auto.
Defined.

(** ** [mutateTenantRoleBindings]: the caller's slice *)

Lemma renamedInPlace_fields (idMap : gmap string string) (rb : RoleBinding.t) :
  oneSubject rb ->
  RoleBinding.Meta (renamedInPlace idMap rb) = RoleBinding.Meta rb
  /\ RoleBinding.Ref (renamedInPlace idMap rb) = RoleBinding.Ref rb
  /\ oneSubject (renamedInPlace idMap rb)
  /\ RoleBinding.Subjects (renamedInPlace idMap rb)
     = match migrateOne idMap rb with
       | Some m => RoleBinding.Subjects m
       | None => RoleBinding.Subjects rb
       end.
Proof.
  intros [s0 Hs]%oneSubject_inv.
  rewrite (renamedInPlace_one idMap rb s0 Hs), (migrateOne_one idMap rb s0 Hs).
  destruct (idMap !! Subject.Name s0) as [id|].
  - change (migratedBinding rb (Subject.Name s0) <$> Some id)
      with (Some (migratedBinding rb (Subject.Name s0) id)).
    cbv beta iota.
    rewrite (migratedBinding_Subjects rb s0 (Subject.Name s0) id Hs). repeat split.
  - repeat split. unfold oneSubject. now rewrite Hs.
Qed.

(** X13. A call that returns leaves the caller's slice with the same
    bindings, their metadata (name and namespace included) and role
    references untouched; the subject of each migrated binding is renamed
    in place to the identity, as in the returned record, and the subjects
    of the other bindings are as before. *)
Theorem caller_slice_after_call
    (rangeOrder : gmap string nat -> list (string * nat))
    (idMap : gmap string string) (rbList : list RoleBinding.t) (out : mutated) :
  mutateTenantRoleBindings rangeOrder idMap rbList = Ok out ->
  rbListAfter out = renamedInPlace idMap <$> rbList
  /\ RoleBinding.Meta <$> rbListAfter out = RoleBinding.Meta <$> rbList
  /\ RoleBinding.Ref <$> rbListAfter out = RoleBinding.Ref <$> rbList
  /\ RoleBinding.Subjects <$> rbListAfter out
     = (fun rb => match migrateOne idMap rb with
                  | Some m => RoleBinding.Subjects m
                  | None => RoleBinding.Subjects rb
                  end) <$> rbList.
Proof.
  intros H. apply mutate_run_spec in H as (Hall & _ & ->).
  split; [reflexivity|]. rewrite <- !list_fmap_compose.
  repeat split; apply Forall_fmap_ext_1; (eapply Forall_impl; [exact Hall|]);
    intros rb Hrb; simpl; now destruct (renamedInPlace_fields idMap rb Hrb) as (? & ? & ? & ?).
Qed.

Lemma caller_slice_after_call_witness :
  let idMap : gmap string string := {[ "jdoe" := "jdoe@redhat.com" ]} in
  let rb := sampleBinding "team-a" "appstudio-jdoe-admin" "jdoe" "appstudio-user" in
  exists out, mutateTenantRoleBindings mapOrder idMap [rb] = Ok out
              /\ RoleBinding.Meta <$> rbListAfter out = [RoleBinding.Meta rb].
Proof.
  intros idMap rb.
  destruct (mutateTenantRoleBindings mapOrder idMap [rb]) as [out| |] eqn:H;
    [|vm_compute in H; discriminate..].
  exists out. split; [reflexivity|].
  exact (proj1 (proj2 (caller_slice_after_call mapOrder idMap [rb] out H))).
Defined.

(** X14. The call cannot be repeated on the same slice: when no identity
    of the mapping is itself a key of the mapping, a second call on the
    slice a first call has left returns no record. *)
Theorem second_call_migrates_nothing
    (order1 order2 : gmap string nat -> list (string * nat))
    (idMap : gmap string string) (rbList : list RoleBinding.t) (out1 : mutated) :
  (forall user id, idMap !! user = Some id -> idMap !! id = None) ->
  mutateTenantRoleBindings order1 idMap rbList = Ok out1 ->
  exists out2,
    mutateTenantRoleBindings order2 idMap (rbListAfter out1) = Ok out2
    /\ migrated out2 = [].
Proof.
  intros Hfresh H. apply mutate_run_spec in H as (Hall & _ & ->).
  assert (Hone : Forall oneSubject (renamedInPlace idMap <$> rbList)).
  { apply Forall_fmap. eapply Forall_impl; [exact Hall|]. intros rb Hrb.
    now destruct (renamedInPlace_fields idMap rb Hrb) as (_ & _ & ? & _). }
  destruct (mutate_run_total order2 idMap _ Hone) as [out2 H2].
  exists out2. split; [exact H2|].
  destruct (mutate_run_spec _ _ _ _ H2) as (_ & -> & _).
  clear H2 Hone. induction Hall as [|rb l Hrb _ IH]; [reflexivity|].
  csimpl. rewrite IH.
  destruct (oneSubject_inv rb Hrb) as [s0 Hs].
  rewrite (renamedInPlace_one idMap rb s0 Hs).
  destruct (idMap !! Subject.Name s0) as [id|] eqn:Hid.
  - unfold migrateOne. cbn [setSubjects RoleBinding.Subjects Subject.setName Subject.Name].
    now rewrite (Hfresh _ _ Hid).
  - now rewrite (migrateOne_one idMap rb s0 Hs), Hid.
Qed.

Lemma second_call_migrates_nothing_witness :
  let idMap : gmap string string := {[ "jdoe" := "jdoe@redhat.com" ]} in
  let rbList := [sampleBinding "team-a" "appstudio-jdoe-admin" "jdoe" "appstudio-user"] in
  exists out1 out2,
    mutateTenantRoleBindings mapOrder idMap rbList = Ok out1
    /\ mutateTenantRoleBindings mapOrder idMap (rbListAfter out1) = Ok out2
    /\ migrated out2 = [].
Proof.
  intros idMap rbList.
  destruct (mutateTenantRoleBindings mapOrder idMap rbList) as [out1| |] eqn:H;
    [|vm_compute in H; discriminate..].
  destruct (second_call_migrates_nothing mapOrder mapOrder idMap rbList out1) as (out2 & H2 & Hm).
  - intros user id. unfold idMap. rewrite lookup_singleton_Some. intros [<- <-].
    vm_compute. reflexivity.
  - exact H.
  - exists out1, out2. auto.
Defined.

(** ** [writeMigratedRoleBindings]: what reaches the file *)

Lemma write_loop_snoc (Encode : RoleBinding.t -> option string)
    (WriteString : list string -> string -> option (list string))
    (l : list RoleBinding.t) (rb : RoleBinding.t) :
  write_loop Encode WriteString (l ++ [rb])
  = write_body Encode WriteString (write_loop Encode WriteString l) rb.
Proof. unfold write_loop. now rewrite fold_left_app. Qed.

Lemma write_loop_app (Encode : RoleBinding.t -> option string)
    (WriteString : list string -> string -> option (list string))
    (l1 l2 : list RoleBinding.t) :
  write_loop Encode WriteString (l1 ++ l2)
  = fold_left (write_body Encode WriteString) l2 (write_loop Encode WriteString l1).
Proof. unfold write_loop. now rewrite fold_left_app. Qed.

Lemma seen_snoc (seen : list RoleBinding.t) (rb : RoleBinding.t) (k : string) :
  (exists b, b ∈ (seen ++ [rb])%list /\ processedRB b = k)
  <-> processedRB rb = k \/ exists b, b ∈ seen /\ processedRB b = k.
Proof.
  split.
  - intros (b & [Hb|Hb%list_elem_of_singleton]%elem_of_app & Hk); subst; eauto.
  - intros [H|(b & Hb & Hk)].
    + exists rb. split; [|exact H]. apply elem_of_app. right. now left.
    + exists b. split; [|exact Hk]. apply elem_of_app. now left.
Qed.

Lemma writeInv_run (Encode : RoleBinding.t -> option string)
    (WriteString : list string -> string -> option (list string))
    (rbList : list RoleBinding.t) :
  writeInv Encode rbList (write_loop Encode WriteString rbList).
Proof.
  induction rbList as [|rb l IH] using rev_ind.
  - unfold writeInv, write_loop. cbn [fold_left processedRBs written writtenRBs].
    split; [|split; [reflexivity|split; [apply sublist_nil|split; [apply NoDup_nil_2|]]]].
    + intros k. rewrite lookup_empty. split; [now intros [? ?]|].
      intros (b & Hb & _). now apply elem_of_nil in Hb.
    + intros b Hb. now apply elem_of_nil in Hb.
  - rewrite write_loop_snoc.
    destruct IH as (Hk & Hw & Hsub & Hnd & Henc).
    set (st := write_loop Encode WriteString l) in *.
    destruct (processedRBs st !! processedRB rb) as [n|] eqn:Hseen.
    + rewrite write_body_seen by (rewrite Hseen; eauto).
      repeat split; try assumption; [| |now apply sublist_inserts_r].
      * intros Hs. apply seen_snoc. right. now apply Hk.
      * intros [<-|H]%seen_snoc; [rewrite Hseen; eauto | now apply Hk].
    + destruct (write_body_new Encode WriteString st rb Hseen) as [Hp Hcases].
      assert (Hkeys : forall k, is_Some (<[processedRB rb := 1]> (processedRBs st) !! k)
                                <-> exists b, b ∈ (l ++ [rb])%list /\ processedRB b = k).
      { intros k. rewrite seen_snoc, <- Hk, lookup_insert.
        case_decide; [split; eauto | split; [now right | intros [?|?]; congruence]]. }
      unfold writeInv. rewrite Hp.
      destruct Hcases as [[-> ->]|(-> & -> & y & Hy & _)].
      * split; [exact Hkeys|]. split; [exact Hw|]. split; [now apply sublist_inserts_r|].
        split; assumption.
      * split; [exact Hkeys|]. split; [rewrite List.length_app; simpl; lia|].
        split; [now apply sublist_app|]. split.
        -- rewrite fmap_app. apply NoDup_app. split; [exact Hnd|].
           split; [|repeat constructor; apply not_elem_of_nil].
           intros k (b & -> & Hb)%list_elem_of_fmap [E|[]%elem_of_nil]%elem_of_cons.
           assert (Hps : is_Some (processedRBs st !! processedRB b)).
           { apply Hk. exists b. split; [eapply elem_of_sublist; eauto | reflexivity]. }
           rewrite E, Hseen in Hps. now destruct Hps.
        -- intros b [Hb|Hb%list_elem_of_singleton]%elem_of_app;
             [now apply Henc | subst; rewrite Hy; eauto].
Qed.

(** What the call returns: the state of the loop, unless the file could
    not be created. *)
Lemma writeMigratedRoleBindings_Ok (Encode : RoleBinding.t -> option string)
    (WriteString : list string -> string -> option (list string))
    (createErr : option string) (rbList : list RoleBinding.t) (ws : writeState) :
  writeMigratedRoleBindings Encode WriteString createErr rbList = Ok ws ->
  createErr = None /\ ws = write_loop Encode WriteString rbList.
Proof.
  unfold writeMigratedRoleBindings. destruct createErr; [discriminate|].
  intros [= <-]. now split.
Qed.

(** X15. Unless the file cannot be created, which is fatal, the call
    returns; the count it prints is then the number of bindings written,
    and the written bindings are bindings of the input in their order,
    each of them encoded, no two of them with the same key. *)
Theorem written_bindings_bookkeeping (Encode : RoleBinding.t -> option string)
    (WriteString : list string -> string -> option (list string))
    (createErr : option string) (rbList : list RoleBinding.t) :
  match writeMigratedRoleBindings Encode WriteString createErr rbList with
  | Ok ws =>
      createErr = None
      /\ written ws = length (writtenRBs ws)
      /\ writtenRBs ws `sublist_of` rbList
      /\ NoDup (processedRB <$> writtenRBs ws)
      /\ forall b, b ∈ writtenRBs ws -> is_Some (Encode b)
  | Fatal msg => exists err, createErr = Some err
  | Panic msg => False
  end.
Proof.
  unfold writeMigratedRoleBindings. destruct createErr as [err|]; [eauto|].
  destruct (writeInv_run Encode WriteString rbList) as (_ & Hw & Hsub & Hnd & Henc).
  auto.
Qed.




Lemma fold_left_invariant {A S : Type} (f : S -> A -> S) (I : S -> Prop) :
  (forall s x, I s -> I (f s x)) -> forall l s, I s -> I (fold_left f l s).
Proof. intros Hstep l; induction l as [|x l IH]; intros s Hs; simpl; auto. Qed.

(** Once marked or written, always there; and so for the chunks of the
    file when no write fails. *)
Lemma write_loop_grows (Encode : RoleBinding.t -> option string)
    (WriteString : list string -> string -> option (list string))
    (l : list RoleBinding.t) (st : writeState) :
  (forall k, is_Some (processedRBs st !! k)
             -> is_Some (processedRBs (fold_left (write_body Encode WriteString) l st) !! k))
  /\ (forall b, b ∈ writtenRBs st
                -> b ∈ writtenRBs (fold_left (write_body Encode WriteString) l st))
  /\ (noWriteError WriteString ->
      forall c, c ∈ file st -> c ∈ file (fold_left (write_body Encode WriteString) l st)).
Proof.
  apply (fold_left_invariant (write_body Encode WriteString)
           (fun s => (forall k, is_Some (processedRBs st !! k) -> is_Some (processedRBs s !! k))
                     /\ (forall b, b ∈ writtenRBs st -> b ∈ writtenRBs s)
                     /\ (noWriteError WriteString -> forall c, c ∈ file st -> c ∈ file s)));
    [|auto].
  intros s rb (Hk & Hw & Hf).
  destruct (processedRBs s !! processedRB rb) as [n|] eqn:Hseen;
    [rewrite write_body_seen by (rewrite Hseen; eauto); auto|].
  destruct (write_body_new Encode WriteString s rb Hseen) as [Hp Hcases].
  split; [|split].
  - intros k Hs. rewrite Hp, lookup_insert. case_decide; eauto.
  - intros b Hb. destruct Hcases as [[-> _]|(-> & _)]; [auto|].
    apply elem_of_app. left. auto.
  - intros Hok c Hc. rewrite (write_body_new_all Encode WriteString s rb Hok Hseen).
    destruct (Encode rb); cbn [file]; apply elem_of_app; left; auto.
Qed.

(** X17. A binding whose key an earlier binding of the input has is
    skipped without a trace: the file, the count and the written bindings
    are those of the input without it. *)
Theorem duplicate_key_is_skipped (Encode : RoleBinding.t -> option string)
    (WriteString : list string -> string -> option (list string))
    (createErr : option string)
    (before after : list RoleBinding.t) (rb : RoleBinding.t) :
  (exists b, b ∈ before /\ processedRB b = processedRB rb) ->
  writeMigratedRoleBindings Encode WriteString createErr (before ++ rb :: after)
  = writeMigratedRoleBindings Encode WriteString createErr (before ++ after).
Proof.
  intros Hdup. unfold writeMigratedRoleBindings. destruct createErr; [reflexivity|].
  f_equal. rewrite !write_loop_app. cbn [fold_left].
  rewrite write_body_seen; [reflexivity|].
  now apply (proj1 (writeInv_run Encode WriteString before)).
Qed.

Lemma duplicate_key_is_skipped_witness :
  let Encode := fun rb : RoleBinding.t => Some (RoleBinding.Name rb) in
  let rb1 := sampleBinding "team-a" "konflux-jdoe-admin" "jdoe" "konflux-admin" in
  let rb2 := sampleBinding "team-a" "konflux-jdoe-admin" "ann" "konflux-view" in
  writeMigratedRoleBindings Encode writesAll None ([rb1] ++ rb2 :: [rb1])
  = writeMigratedRoleBindings Encode writesAll None ([rb1] ++ [rb1]).
Proof.
  intros Encode rb1 rb2. apply duplicate_key_is_skipped.
  exists rb1. split; [left | reflexivity].
Defined.

(** The key of a binding gone through stays barred: what is written
    afterwards has another key. *)
Lemma write_loop_barred (Encode : RoleBinding.t -> option string)
    (WriteString : list string -> string -> option (list string))
    (k : string) (l : list RoleBinding.t) (st : writeState) :
  is_Some (processedRBs st !! k) ->
  forall b, b ∈ writtenRBs (fold_left (write_body Encode WriteString) l st) ->
            b ∈ writtenRBs st \/ processedRB b <> k.
Proof.
  intros Hk.
  apply (fold_left_invariant (write_body Encode WriteString)
           (fun s => is_Some (processedRBs s !! k)
                     /\ forall b, b ∈ writtenRBs s -> b ∈ writtenRBs st \/ processedRB b <> k));
    [|auto].
  intros s x [Hs Hw].
  destruct (processedRBs s !! processedRB x) as [n|] eqn:Hseen;
    [rewrite write_body_seen by (rewrite Hseen; eauto); auto|].
  destruct (write_body_new Encode WriteString s x Hseen) as [Hp Hcases].
  split; [rewrite Hp, lookup_insert; case_decide; eauto|].
  destruct Hcases as [[-> _]|(-> & _)]; [exact Hw|].
  intros b [Hb|Hb%list_elem_of_singleton]%elem_of_app; [auto|]. subst b.
  right. intros E. rewrite <- E, Hseen in Hs. now destruct Hs.
Qed.

Lemma fresh_key_unmarked (Encode : RoleBinding.t -> option string)
    (WriteString : list string -> string -> option (list string))
    (before : list RoleBinding.t) (rb : RoleBinding.t) :
  (forall b, b ∈ before -> processedRB b <> processedRB rb) ->
  processedRBs (write_loop Encode WriteString before) !! processedRB rb = None
  /\ rb ∉ writtenRBs (write_loop Encode WriteString before).
Proof.
  intros Hfresh.
  destruct (writeInv_run Encode WriteString before) as (Hk & _ & Hsub & _). split.
  - destruct (processedRBs _ !! processedRB rb) eqn:E; [|reflexivity].
    assert (Hs : is_Some (processedRBs (write_loop Encode WriteString before)
                            !! processedRB rb)) by (rewrite E; eauto).
    apply Hk in Hs as (b & Hb & Hkey). now destruct (Hfresh b Hb).
  - intros Hin. apply (Hfresh rb); [|reflexivity]. eapply elem_of_sublist; eauto.
Qed.

(** X18. The first binding of a key is written exactly when it is
    encoded and the writes of its separator and of its document succeed;
    when no write to the file fails at all, its document, without the
    [creationTimestamp: null] line, is in the file at the end. *)
Theorem first_of_key_is_written (Encode : RoleBinding.t -> option string)
    (WriteString : list string -> string -> option (list string))
    (createErr : option string)
    (before after : list RoleBinding.t) (rb : RoleBinding.t) (ws : writeState) :
  (forall b, b ∈ before -> processedRB b <> processedRB rb) ->
  writeMigratedRoleBindings Encode WriteString createErr (before ++ rb :: after) = Ok ws ->
  let st := write_loop Encode WriteString before in
  (rb ∈ writtenRBs ws
   <-> exists yamlData,
         Encode rb = Some yamlData
         /\ WriteString (file st) separator = None
         /\ WriteString (file st ++ [separator])%list (stripTimestamp yamlData) = None)
  /\ (noWriteError WriteString ->
      forall yamlData, Encode rb = Some yamlData ->
                       rb ∈ writtenRBs ws /\ stripTimestamp yamlData ∈ file ws).
Proof.
  intros Hfresh [_ ->]%writeMigratedRoleBindings_Ok st.
  rewrite write_loop_app. cbn [fold_left]. fold st.
  destruct (fresh_key_unmarked Encode WriteString before rb Hfresh) as [Hnew Hnot].
  fold st in Hnew, Hnot.
  destruct (write_body_new Encode WriteString st rb Hnew) as [Hp Hcases].
  destruct (write_loop_grows Encode WriteString after (write_body Encode WriteString st rb))
    as (_ & Hw & Hf).
  split.
  - split.
    + intros Hin.
      destruct (write_loop_barred Encode WriteString (processedRB rb) after
                  (write_body Encode WriteString st rb)
                  (write_body_marks Encode WriteString st rb) rb Hin) as [Hb|Hb];
        [|congruence].
      destruct Hcases as [[E _]|(_ & _ & y & Hy & Hsep & Hdoc & _)];
        [rewrite E in Hb; contradiction | eauto].
    + intros (y & Hy & Hsep & Hdoc). apply Hw.
      destruct Hcases as [[E _]|(-> & _)]; [|apply elem_of_app; right; left].
      exfalso. revert E. unfold write_body. rewrite Hnew, Hsep, Hy.
      fold (stripTimestamp y). rewrite Hdoc. cbn [writtenRBs]. intros E.
      apply (f_equal (@length _)) in E. rewrite List.length_app in E. simpl in E. lia.
  - intros Hok y Hy.
    pose proof (write_body_new_all Encode WriteString st rb Hok Hnew) as E. rewrite Hy in E.
    split; [apply Hw | apply (Hf Hok)]; rewrite E; cbn [writtenRBs file];
      apply elem_of_app; right; [left | right; left].
Qed.

Lemma first_of_key_is_written_witness :
  let Encode := fun rb : RoleBinding.t => Some (RoleBinding.Name rb) in
  let rb1 := sampleBinding "team-a" "konflux-jdoe-admin" "jdoe" "konflux-admin" in
  let rb2 := sampleBinding "team-b" "konflux-jdoe-admin" "jdoe" "konflux-admin" in
  exists ws, writeMigratedRoleBindings Encode writesAll None ([rb1] ++ rb2 :: [rb1]) = Ok ws
             /\ rb2 ∈ writtenRBs ws /\ stripTimestamp "konflux-jdoe-admin" ∈ file ws.
Proof.
  intros Encode rb1 rb2. eexists. split; [reflexivity|].
  apply (proj2 (first_of_key_is_written Encode writesAll None [rb1] [rb1] rb2 _
                  ltac:(intros b ->%list_elem_of_singleton; discriminate) eq_refl)
           ltac:(intros chunks s0; reflexivity) "konflux-jdoe-admin" eq_refl).
Defined.

(** X19. When the file is created, no write fails, the bindings have
    different keys and all can be encoded, all of them are written, in
    their order, and the file is the sequence of their separators and
    documents. *)
Theorem distinct_keys_all_written (Encode : RoleBinding.t -> option string)
    (WriteString : list string -> string -> option (list string))
    (rbList : list RoleBinding.t) :
  noWriteError WriteString ->
  NoDup (processedRB <$> rbList) ->
  (forall rb, rb ∈ rbList -> is_Some (Encode rb)) ->
  exists ws,
    writeMigratedRoleBindings Encode WriteString None rbList = Ok ws
    /\ writtenRBs ws = rbList
    /\ written ws = length rbList
    /\ file ws = flat_map (fun rb => [separator;
                                      stripTimestamp (default "" (Encode rb))]) rbList.
Proof.
  intros Hok Hnd Henc. exists (write_loop Encode WriteString rbList).
  split; [reflexivity|].
  assert (H : writtenRBs (write_loop Encode WriteString rbList) = rbList
              /\ file (write_loop Encode WriteString rbList)
                 = flat_map (fun rb => [separator;
                                        stripTimestamp (default "" (Encode rb))]) rbList).
  { induction rbList as [|rb l IH] using rev_ind; [split; reflexivity|].
    rewrite fmap_app in Hnd. apply NoDup_app in Hnd as (Hl & Hrb & _).
    destruct IH as [IHw IHf]; [exact Hl | intros b Hb; apply Henc, elem_of_app; now left|].
    rewrite write_loop_snoc.
    destruct (fresh_key_unmarked Encode WriteString l rb) as [Hnew _].
    { intros b Hb E. apply (Hrb (processedRB b)); [now apply list_elem_of_fmap_2|].
      rewrite E. left. }
    rewrite (write_body_new_all Encode WriteString _ rb Hok Hnew).
    destruct (Henc rb) as [y Hy]; [apply elem_of_app; right; left|].
    rewrite Hy. cbn [writtenRBs file]. rewrite IHw, IHf, flat_map_app. simpl.
    now rewrite Hy. }
  destruct H as [Hw Hf]. split; [exact Hw|]. split; [|exact Hf].
  rewrite (proj1 (proj2 (writeInv_run Encode WriteString rbList))). now rewrite Hw.
Qed.

Lemma distinct_keys_all_written_witness :
  let Encode := fun rb : RoleBinding.t => Some (RoleBinding.Name rb) in
  let rb1 := sampleBinding "team-a" "konflux-jdoe-admin" "jdoe" "konflux-admin" in
  let rb2 := sampleBinding "team-b" "konflux-jdoe-admin" "jdoe" "konflux-admin" in
  exists ws, writeMigratedRoleBindings Encode writesAll None [rb1; rb2] = Ok ws
             /\ writtenRBs ws = [rb1; rb2].
Proof.
  intros Encode rb1 rb2.
  destruct (distinct_keys_all_written Encode writesAll [rb1; rb2]) as (ws & H & Hw & _).
  - intros chunks s0. reflexivity.
  - apply NoDup_cons. split; [|apply NoDup_singleton].
    intros H%list_elem_of_singleton. vm_compute in H. discriminate.
  - intros rb _. unfold Encode. eauto.
  - exists ws. split; [exact H | exact Hw].
Defined.

(** X20. A first binding of a key that cannot be encoded is not written,
    and it bars every later binding of its key: no binding of that key is
    written, whatever the file system does. *)
Theorem failed_encoding_bars_key (Encode : RoleBinding.t -> option string)
    (WriteString : list string -> string -> option (list string))
    (createErr : option string)
    (before after : list RoleBinding.t) (rb : RoleBinding.t) :
  (forall b, b ∈ before -> processedRB b <> processedRB rb) ->
  Encode rb = None ->
  match writeMigratedRoleBindings Encode WriteString createErr (before ++ rb :: after) with
  | Ok ws => forall b, b ∈ writtenRBs ws -> processedRB b <> processedRB rb
  | Fatal msg => exists err, createErr = Some err
  | Panic msg => False
  end.
Proof.
  intros Hfresh Hnone. unfold writeMigratedRoleBindings.
  destruct createErr as [err|]; [eauto|].
  rewrite write_loop_app. cbn [fold_left].
  destruct (fresh_key_unmarked Encode WriteString before rb Hfresh) as [Hnew _].
  destruct (writeInv_run Encode WriteString before) as (_ & _ & Hsub & _).
  destruct (write_body_new Encode WriteString _ rb Hnew) as [_ Hcases].
  intros b Hb.
  destruct (write_loop_barred Encode WriteString (processedRB rb) after _
              (write_body_marks Encode WriteString (write_loop Encode WriteString before) rb)
              b Hb) as [Hin|Hne]; [|exact Hne].
  destruct Hcases as [[E _]|(_ & _ & y & Hy & _)]; [|congruence].
  rewrite E in Hin. apply Hfresh. eapply elem_of_sublist; eauto.
Qed.

Lemma failed_encoding_bars_key_witness :
  let rb1 := sampleBinding "team-a" "konflux-jdoe-admin" "jdoe" "konflux-admin" in
  let rb2 := sampleBinding "team-a" "konflux-jdoe-admin" "ann" "konflux-view" in
  let Encode := fun rb : RoleBinding.t =>
                  if String.eqb (RoleRef.Name (RoleBinding.Ref rb)) "konflux-admin"
                  then None else Some (RoleBinding.Name rb) in
  Encode rb1 = None
  /\ match writeMigratedRoleBindings Encode writesAll None ([] ++ rb1 :: [rb2]) with
     | Ok ws => forall b, b ∈ writtenRBs ws -> processedRB b <> processedRB rb1
     | Fatal msg => exists err, (None : option string) = Some err
     | Panic msg => False
     end.
Proof.
  intros rb1 rb2 Encode. split; [reflexivity|].
  apply (failed_encoding_bars_key Encode writesAll None [] [rb2] rb1); [|reflexivity].
  intros b Hb. now apply elem_of_nil in Hb.
Defined.

(** ** [getTenantRoleBindings] and [migrate] *)

Lemma tenantRoleBindings_cons (rb : RoleBinding.t) (rest : list RoleBinding.t) :
  tenantRoleBindings (rb :: rest)
  = if String.eqb (RoleBinding.Name rb) "appstudio-pipelines-runner-rolebinding"
    then tenantRoleBindings rest
    else if String.eqb (RoleBinding.Namespace rb) "toolchain-host-operator"
    then tenantRoleBindings rest
    else rb :: tenantRoleBindings rest.
Proof. reflexivity. Qed.

Lemma tenantRoleBindings_spec (items : list RoleBinding.t) :
  tenantRoleBindings items `sublist_of` items
  /\ forall rb, rb ∈ tenantRoleBindings items
                <-> rb ∈ items
                    /\ RoleBinding.Name rb <> "appstudio-pipelines-runner-rolebinding"
                    /\ RoleBinding.Namespace rb <> "toolchain-host-operator".
Proof.
  induction items as [|x items [IHs IHm]].
  - split; [constructor|]. intros rb. split; [intros []%elem_of_nil | intros [[]%elem_of_nil _]].
  - rewrite tenantRoleBindings_cons.
    destruct (String.eqb_spec (RoleBinding.Name x) "appstudio-pipelines-runner-rolebinding")
      as [Hn|Hn];
      [|destruct (String.eqb_spec (RoleBinding.Namespace x) "toolchain-host-operator")
          as [Hs|Hs]].
    + split; [now constructor|]. intros rb. rewrite IHm, elem_of_cons.
      split; [intros (? & ? & ?); auto | intros ([->|?] & ? & ?); [congruence | auto]].
    + split; [now constructor|]. intros rb. rewrite IHm, elem_of_cons.
      split; [intros (? & ? & ?); auto | intros ([->|?] & ? & ?); [congruence | auto]].
    + split; [now constructor|]. intros rb. rewrite !elem_of_cons, IHm.
      split; [intros [->|(? & ? & ?)]; auto | intros ([->|?] & ? & ?); auto].
Qed.

(** X21. [getTenantRoleBindings] keeps, in the order of the listing,
    exactly the bindings that are not named
    [appstudio-pipelines-runner-rolebinding] and are not in the namespace
    [toolchain-host-operator]; a failed listing is fatal. *)
Theorem getTenantRoleBindings_filters (listed : list RoleBinding.t + string) :
  match listed with
  | inl items =>
      exists rbList,
        getTenantRoleBindings listed = Ok rbList
        /\ rbList `sublist_of` items
        /\ forall rb, rb ∈ rbList
                      <-> rb ∈ items
                          /\ RoleBinding.Name rb <> "appstudio-pipelines-runner-rolebinding"
                          /\ RoleBinding.Namespace rb <> "toolchain-host-operator"
  | inr err => getTenantRoleBindings listed = Fatal ("Failed to list Tenant RoleBindings: " ++ err)
  end.
Proof.
  destruct listed as [items|err]; [|reflexivity].
  exists (tenantRoleBindings items). split; [reflexivity | apply tenantRoleBindings_spec].
Qed.

(** X22. What [migrate] writes, from the listings on: every binding in
    the file is a migrated one, of kind [ClusterRole] with the one label
    [konflux-ci.dev/type: user] and without UID or resource version, in the
    namespace of a listed binding that the filter kept; so nothing is
    written for the namespace [toolchain-host-operator]. *)
Theorem migrate_writes_only_migrated (Encode : RoleBinding.t -> option string)
    (WriteString : list string -> string -> option (list string))
    (createErr : option string)
    (rangeOrder : gmap string nat -> list (string * nat))
    (idMap : gmap string string)
    (namespaces : list ObjectMeta.t + string) (items : list RoleBinding.t)
    (ws : writeState) (b : RoleBinding.t) :
  migrateListed Encode WriteString createErr rangeOrder idMap namespaces (inl items) = Ok ws ->
  b ∈ writtenRBs ws ->
  RoleRef.Kind (RoleBinding.Ref b) = "ClusterRole"
  /\ ObjectMeta.Labels (RoleBinding.Meta b) = {[ "konflux-ci.dev/type" := "user" ]}
  /\ ObjectMeta.UID (RoleBinding.Meta b) = ""
  /\ ObjectMeta.ResourceVersion (RoleBinding.Meta b) = ""
  /\ RoleBinding.Namespace b <> "toolchain-host-operator"
  /\ exists rb s0,
       rb ∈ items /\ RoleBinding.Subjects rb = [s0] /\ is_Some (idMap !! Subject.Name s0)
       /\ RoleBinding.Namespace b = RoleBinding.Namespace rb
       /\ RoleBinding.Name rb <> "appstudio-pipelines-runner-rolebinding".
Proof.
  intros H Hb. unfold migrateListed in H.
  destruct namespaces as [nss|err]; [|discriminate]. cbn [getTenantNamespaces bind] in H.
  cbn [getTenantRoleBindings bind] in H. unfold migrate in H.
  destruct (mutateTenantRoleBindings rangeOrder idMap (tenantRoleBindings items))
    as [out| |] eqn:Hm; try discriminate.
  cbn [bind] in H. apply writeMigratedRoleBindings_Ok in H as [_ ->].
  assert (Hin : b ∈ migrated out).
  { eapply elem_of_sublist; [exact Hb|].
    apply (proj1 (proj2 (proj2 (writeInv_run Encode WriteString (migrated out))))). }
  apply mutate_run_spec in Hm as (Hall & E & _). rewrite E in Hin.
  destruct (migrated_origin idMap _ b Hall Hin) as (rb & s0 & id & Hrb & Hs & Hid & ->).
  apply (proj2 (tenantRoleBindings_spec items)) in Hrb as (Hitems & Hname & Hns).
  repeat split; try assumption.
  exists rb, s0. repeat split; eauto.
Qed.

Lemma migrate_writes_only_migrated_witness :
  let idMap : gmap string string := {[ "jdoe" := "jdoe@redhat.com" ]} in
  let items := [sampleBinding "toolchain-host-operator" "appstudio-jdoe-admin" "jdoe" "appstudio-user";
                sampleBinding "team-a" "appstudio-jdoe-admin" "jdoe" "appstudio-user"] in
  exists ws,
    migrateListed (fun rb => Some (RoleBinding.Name rb)) writesAll None mapOrder idMap
      (inl []) (inl items) = Ok ws
    /\ forall b, b ∈ writtenRBs ws -> RoleBinding.Namespace b <> "toolchain-host-operator".
Proof.
  intros idMap items.
  destruct (migrateListed (fun rb => Some (RoleBinding.Name rb)) writesAll None mapOrder idMap
              (inl []) (inl items))
    as [ws| |] eqn:H; [|vm_compute in H; discriminate..].
  exists ws. split; [reflexivity|]. intros b Hb.
  exact (proj1 (proj2 (proj2 (proj2 (proj2
           (migrate_writes_only_migrated _ writesAll None mapOrder idMap (inl []) items ws b
              H Hb)))))).
Defined.


(** ** The further properties at sample inputs *)

Lemma cleanEmail_length_and_at_count_witness :
  String.length (cleanEmail "jdoe+dev@redhat.com") < String.length "jdoe+dev@redhat.com".
Proof.
  apply (proj2 (proj2 (cleanEmail_length_and_at_count "jdoe+dev@redhat.com"))).
  reflexivity.
Defined.

Lemma cleanEmail_removes_every_tag_witness :
  cleanEmail "jdoe@redhat.com" = "jdoe@redhat.com".
Proof.
  apply (proj2 (proj2 (cleanEmail_removes_every_tag "jdoe@redhat.com"))).
  reflexivity.
Defined.

Lemma buildIDMap_cleanEmail_values_witness :
  exists idMap,
    buildIDMap [sampleAccount "jdoe" "jdoe+dev@redhat.com"] cleanEmailT = Ok idMap
    /\ (idMap !! "jdoe" = Some "jdoe@redhat.com" -> hasTag "jdoe@redhat.com" = false).
Proof.
  destruct (buildIDMap_cleanEmail_values [sampleAccount "jdoe" "jdoe+dev@redhat.com"])
    as (idMap & H & Hv).
  exists idMap. split; [exact H|]. intros Hl. exact (proj1 (Hv "jdoe" "jdoe@redhat.com" Hl)).
Defined.

Lemma written_bindings_bookkeeping_witness :
  let rb1 := sampleBinding "team-a" "konflux-jdoe-admin" "jdoe" "konflux-admin" in
  exists ws,
    writeMigratedRoleBindings (fun rb => Some (RoleBinding.Name rb)) writesAll None [rb1; rb1]
    = Ok ws
    /\ written ws = length (writtenRBs ws) /\ NoDup (processedRB <$> writtenRBs ws).
Proof.
  intros rb1.
  pose proof (written_bindings_bookkeeping (fun rb => Some (RoleBinding.Name rb)) writesAll None
                [rb1; rb1]) as H.
  destruct (writeMigratedRoleBindings (fun rb => Some (RoleBinding.Name rb)) writesAll None
              [rb1; rb1]) as [ws| |] eqn:E; [|discriminate E..].
  exists ws. destruct H as (_ & Hw & _ & Hnd & _). auto.
Defined.


Lemma getTenantRoleBindings_filters_witness :
  let rb1 := sampleBinding "team-a" "appstudio-pipelines-runner-rolebinding" "jdoe" "appstudio-user" in
  let rb2 := sampleBinding "team-a" "appstudio-jdoe-admin" "jdoe" "appstudio-user" in
  exists rbList, getTenantRoleBindings (inl [rb1; rb2]) = Ok rbList /\ rb2 ∈ rbList.
Proof.
  intros rb1 rb2.
  destruct (getTenantRoleBindings_filters (inl [rb1; rb2])) as (rbList & H & _ & Hm).
  exists rbList. split; [exact H|]. apply Hm.
  split; [right; left|]. split; discriminate.
Defined.

(** ** Two runs *)

(** The orphan report does depend on the order in which [range] visits
    the map. *)
Example orphans_follow_rangeOrder :
  let rbList := [sampleBinding "team-a" "appstudio-ann-admin" "ann" "appstudio-user";
                 sampleBinding "team-b" "appstudio-bob-admin" "bob" "appstudio-user"] in
  result_map orphans (mutateTenantRoleBindings mapOrder ∅ rbList)
  <> result_map orphans (mutateTenantRoleBindings (fun m => rev (map_to_list m)) ∅ rbList).
Proof. vm_compute. discriminate. Qed.






